(** * MediaBrain: identification and ingestion pipeline

    A shallow embedding of the core of MediaBrain (core.py, providers.py,
    background.py, MediaBrain.py) together with the properties of its
    specification.

    Conventions of the embedding.
    - Text is a [string] whose characters are code points below 256
      (Latin-1); every Python string operation used by the program is
      modelled exactly on that alphabet.
    - A point in time (a naive [datetime]) is an integer number of
      microseconds; a TEXT column that holds [datetime.isoformat()] is a
      [datetime], since [fromisoformat] inverts [isoformat].
    - Readings of the clock and answers of the metadata service are inputs
      of the operation that asks for them.
    - A Python dict is a [gmap string pyval]; the table [media_items] is the
      list of its rows in rowid order. *)

From Stdlib Require Import ZArith Ascii String List Bool Lia.
From stdpp Require Import base option list gmap strings pretty.

Local Open Scope Z_scope.

(* ===================================================================== *)
(** * Python values *)
(* ===================================================================== *)

Inductive pyval :=
  | PNone
  | PBool (b : bool)
  | PInt (z : Z)
  | PStr (s : string).

#[global] Instance pyval_eq_dec : EqDecision pyval.
Proof. solve_decision. Defined.

Abbreviation dict := (gmap string pyval).

(** [bool(v)], the truth value used by [if v] and [not v]. *)
Definition truthy (v : pyval) : bool :=
  match v with
  | PNone => false
  | PBool b => b
  | PInt z => negb (z =? 0)
  | PStr s => negb (String.eqb s "")
  end.

(** [v is None] *)
Definition is_none (v : pyval) : bool :=
  match v with PNone => true | _ => false end.

(** [str(v)] *)
Definition py_str (v : pyval) : string :=
  match v with
  | PNone => "None"
  | PBool true => "True"
  | PBool false => "False"
  | PInt z => pretty z
  | PStr s => s
  end.

(** [v == s] for a string literal [s]. *)
Definition eq_str (v : pyval) (s : string) : bool :=
  match v with PStr s' => String.eqb s' s | _ => false end.

(** [d.get(k)] *)
Definition get (d : dict) (k : string) : pyval := default PNone (d !! k).

(** [d.get(k, dflt)] *)
Definition get_default (d : dict) (k : string) (dflt : pyval) : pyval :=
  default dflt (d !! k).

(* ===================================================================== *)
(** * Text *)
(* ===================================================================== *)

Module Text.

Definition code (c : ascii) : N := N_of_ascii c.

Definition in_range (lo hi : N) (c : ascii) : bool :=
  ((lo <=? code c) && (code c <=? hi))%N.

Definition is_digit (c : ascii) : bool := in_range 48 57 c.
Definition is_lower (c : ascii) : bool := in_range 97 122 c.
Definition is_upper (c : ascii) : bool := in_range 65 90 c.
Definition is_alpha (c : ascii) : bool := is_lower c || is_upper c.
Definition is_alnum (c : ascii) : bool := is_alpha c || is_digit c.

(** [str.isspace] on one character: TAB..CR, FS..US, SPACE, NEL, NBSP. *)
Definition is_space (c : ascii) : bool :=
  in_range 9 13 c || in_range 28 32 c || (code c =? 133)%N || (code c =? 160)%N.

(** [str.lower] on one character: A-Z and the upper-case letters of
    Latin-1 (all of U+00C0..U+00DE but the multiplication sign). *)
Definition lower_char (c : ascii) : ascii :=
  if is_upper c || (in_range 192 222 c && negb (code c =? 215)%N)
  then ascii_of_N (code c + 32) else c.

Fixpoint lower (s : string) : string :=
  match s with
  | EmptyString => EmptyString
  | String c r => String (lower_char c) (lower r)
  end.

(** [s.startswith(p)], returning what follows the prefix. *)
Fixpoint strip_prefix (p s : string) : option string :=
  match p, s with
  | EmptyString, _ => Some s
  | String a p', String b s' => if Ascii.eqb a b then strip_prefix p' s' else None
  | String _ _, EmptyString => None
  end.

Definition starts_with (p s : string) : bool :=
  match strip_prefix p s with Some _ => true | None => false end.

(** [p in s] *)
Fixpoint contains (p s : string) : bool :=
  starts_with p s ||
  match s with
  | EmptyString => false
  | String _ r => contains p r
  end.

(** [s.split(p)[0]] for a non-empty separator [p]: the text before the
    first occurrence of [p], all of [s] when there is none. *)
Fixpoint before_first (p s : string) : string :=
  if starts_with p s then EmptyString
  else match s with
       | EmptyString => EmptyString
       | String c r => String c (before_first p r)
       end.

(** The longest prefix of characters of a class, and the rest. *)
Fixpoint span (cls : ascii -> bool) (s : string) : string * string :=
  match s with
  | EmptyString => (EmptyString, EmptyString)
  | String c r =>
      if cls c then let '(a, b) := span cls r in (String c a, b)
      else (EmptyString, s)
  end.

Fixpoint lstrip (s : string) : string :=
  match s with
  | String c r => if is_space c then lstrip r else s
  | EmptyString => EmptyString
  end.

(** Drops trailing white space: a character is kept when something that
    is kept follows it or when it is not white space. *)
Fixpoint rstrip (s : string) : string :=
  match s with
  | EmptyString => EmptyString
  | String c r =>
      match rstrip r with
      | EmptyString => if is_space c then EmptyString else String c EmptyString
      | r' => String c r'
      end
  end.

(** [s.strip()] *)
Definition strip (s : string) : string := rstrip (lstrip s).

(** [s[:n]] *)
Fixpoint take (n : nat) (s : string) : string :=
  match n, s with
  | S n', String c r => String c (take n' r)
  | _, _ => EmptyString
  end.

(** The character with a given code point. *)
Definition chr (n : N) : string := String (ascii_of_N n) EmptyString.

End Text.

(** [int(s)] for a string: optional white space around an optional sign
    and decimal digits, single underscores allowed between digits.
    [None] stands for the [ValueError] of [int]. (The limit that CPython
    puts on the number of digits, 4300 unless configured otherwise, is
    not part of the model.) *)
Fixpoint int_digits (acc : Z) (after_underscore : bool) (s : string) : option Z :=
  match s with
  | EmptyString => if after_underscore then None else Some acc
  | String c r =>
      if Text.is_digit c
      then int_digits (10 * acc + (Z.of_N (Text.code c) - 48)) false r
      else if Ascii.eqb c "_"
           then (if after_underscore then None else int_digits acc true r)
           else None
  end.

Definition int_unsigned (s : string) : option Z :=
  match s with
  | String c _ => if Text.is_digit c then int_digits 0 false s else None
  | EmptyString => None
  end.

Definition int_of_str (s : string) : option Z :=
  match Text.strip s with
  | String "+" r => int_unsigned r
  | String "-" r => Z.opp <$> int_unsigned r
  | t => int_unsigned t
  end.

(** [int(v)]; [None] stands for [ValueError] or [TypeError], which the
    callers below catch together. *)
Definition py_int (v : pyval) : option Z :=
  match v with
  | PNone => None
  | PBool b => Some (if b then 1 else 0)
  | PInt z => Some z
  | PStr s => int_of_str s
  end.

(* ===================================================================== *)
(** * core.py: the database *)
(* ===================================================================== *)

Definition datetime := Z.

(** [timedelta(days=n)] in microseconds. *)
Definition days (n : Z) : Z := n * 86400000000.

(** One row of [media_items]; [MediaItem.__init__] copies the columns. *)
Record MediaItem := {
  id : Z;
  title : string;
  type : string;
  source : string;
  provider_id : option string;
  length_seconds : option Z;
  created_at : datetime;
  last_opened_at : option datetime;
  open_method : option string;
  is_favorite : Z;
  is_local_file : Z;
  local_path : option string;
  description : option string;
  thumbnail_url : option string;
  season : option Z;
  episode : option Z;
  artist : option string;
  album : option string;
  channel : option string;
  blacklist_flag : Z;
  blacklisted_at : option datetime;
  procedure_code : Z
}.

#[global] Instance MediaItem_eq_dec : EqDecision MediaItem.
Proof. solve_decision. Defined.

(** The table and the counter that AUTOINCREMENT keeps in
    [sqlite_sequence]. *)
Record Database := {
  rows : list MediaItem;
  seq : Z
}.

(** [Database._setup] on a fresh file. *)
Definition empty_db : Database := {| rows := []; seq := 0 |}.

(** What a bound parameter becomes in a column of TEXT affinity (and in a
    comparison with such a column). *)
Definition to_text (v : pyval) : option string :=
  match v with
  | PNone => None
  | PBool b => Some (if b then "1" else "0")
  | PInt z => Some (pretty z)
  | PStr s => Some s
  end.

(** A bound parameter for an INTEGER column; the parameters of the
    program are [None] or an [int] when they get here (see
    [validate_numeric_typed]). *)
Definition to_integer (v : pyval) : option Z :=
  match v with
  | PInt z => Some z
  | PBool b => Some (if b then 1 else 0)
  | _ => None
  end.

(** [UPDATE media_items SET ... WHERE id = ?] *)
Definition update_where_id (item_id : Z) (f : MediaItem -> MediaItem)
    (db : Database) : Database :=
  {| rows := map (fun r => if id r =? item_id then f r else r) (rows db);
     seq := seq db |}.

(** [SET blacklist_flag = ?, blacklisted_at = ?, procedure_code = ?] *)
Definition set_suppression (flag : Z) (at_ : option datetime) (code : Z)
    (r : MediaItem) : MediaItem :=
  {| id := id r; title := title r; type := type r; source := source r;
     provider_id := provider_id r; length_seconds := length_seconds r;
     created_at := created_at r; last_opened_at := last_opened_at r;
     open_method := open_method r; is_favorite := is_favorite r;
     is_local_file := is_local_file r; local_path := local_path r;
     description := description r; thumbnail_url := thumbnail_url r;
     season := season r; episode := episode r; artist := artist r;
     album := album r; channel := channel r;
     blacklist_flag := flag; blacklisted_at := at_; procedure_code := code |}.

(** [SET last_opened_at = ?, open_method = COALESCE(?, open_method)] *)
Definition set_opened (t : datetime) (method : option string)
    (r : MediaItem) : MediaItem :=
  {| id := id r; title := title r; type := type r; source := source r;
     provider_id := provider_id r; length_seconds := length_seconds r;
     created_at := created_at r; last_opened_at := Some t;
     open_method := match method with Some m => Some m | None => open_method r end;
     is_favorite := is_favorite r;
     is_local_file := is_local_file r; local_path := local_path r;
     description := description r; thumbnail_url := thumbnail_url r;
     season := season r; episode := episode r; artist := artist r;
     album := album r; channel := channel r;
     blacklist_flag := blacklist_flag r; blacklisted_at := blacklisted_at r;
     procedure_code := procedure_code r |}.

(** The row an [INSERT] of [add_or_update] asks for; the three columns
    declared NOT NULL without a default may be offered NULL. *)
Record NewRow := {
  n_title : option string;
  n_type : option string;
  n_source : option string;
  n_provider_id : option string;
  n_length_seconds : option Z;
  n_last_opened_at : option datetime;
  n_open_method : option string;
  n_is_local_file : Z;
  n_local_path : option string;
  n_description : option string;
  n_thumbnail_url : option string;
  n_season : option Z;
  n_episode : option Z;
  n_artist : option string;
  n_album : option string;
  n_channel : option string
}.

(** [UNIQUE(provider_id, source)]: a NULL provider_id conflicts with
    nothing. *)
Definition same_fingerprint (p : option string) (s : string) (r : MediaItem) : bool :=
  match p, provider_id r with
  | Some a, Some b => String.eqb a b && String.eqb s (source r)
  | _, _ => false
  end.

Definition next_rowid (db : Database) : Z :=
  1 + fold_right Z.max (seq db) (map id (rows db)).

(** [INSERT INTO media_items (...) VALUES (...)]; [None] is the
    [IntegrityError] of a violated NOT NULL or UNIQUE constraint. The
    columns that are not listed take their defaults; [created_at]
    (CURRENT_TIMESTAMP) is the reading of the clock at the insert. *)
Definition insert (t : datetime) (n : NewRow) (db : Database) : option Database :=
  match n_title n, n_type n, n_source n with
  | Some ti, Some ty, Some so =>
      if existsb (same_fingerprint (n_provider_id n) so) (rows db) then None
      else
        let i := next_rowid db in
        Some {| rows := rows db ++
                  [ {| id := i; title := ti; type := ty; source := so;
                       provider_id := n_provider_id n;
                       length_seconds := n_length_seconds n;
                       created_at := t;
                       last_opened_at := n_last_opened_at n;
                       open_method := n_open_method n;
                       is_favorite := 0;
                       is_local_file := n_is_local_file n;
                       local_path := n_local_path n;
                       description := n_description n;
                       thumbnail_url := n_thumbnail_url n;
                       season := n_season n; episode := n_episode n;
                       artist := n_artist n; album := n_album n;
                       channel := n_channel n;
                       blacklist_flag := 0; blacklisted_at := None;
                       procedure_code := 0 |} ];
                seq := i |}
  | _, _, _ => None
  end.

(* ===================================================================== *)
(** * core.py: BlacklistManager *)
(* ===================================================================== *)

Definition _expiry_date (start : datetime) (code : Z) : option datetime :=
  if code =? 1 then Some (start + days 1)
  else if code =? 2 then Some (start + days 7)
  else if code =? 3 then Some (start + days 30)
  else if code =? 4 then Some (start + days 90)
  else if code =? 5 then Some (start + days 365)
  else if code =? 6 then None
  else None.

(** One turn of the loop of [refresh_blacklist] on a selected row;
    [now] is the reading of the clock taken for that row. *)
Definition refresh_row (now : datetime) (row : MediaItem) (db : Database) : Database :=
  match blacklisted_at row with
  | None => db
  | Some start =>
      match _expiry_date start (procedure_code row) with
      | Some expiry =>
          if expiry <? now
          then update_where_id (id row) (set_suppression 0 None 0) db
          else db
      | None => db
      end
  end.

(** [refresh_blacklist]: the rows with [blacklist_flag = 1] are fetched
    first, then visited in turn. The clock is read once for each visited
    row that has an expiry; [now i] is the reading for the row with id
    [i]. *)
Definition refresh_blacklist (now : Z -> datetime) (db : Database) : Database :=
  fold_left (fun d row => refresh_row (now (id row)) row d)
            (filter (fun r => blacklist_flag r = 1) (rows db)) db.

Definition set_blacklist (item_id : Z) (enabled : bool) (code : Z)
    (now : datetime) (db : Database) : Database :=
  if enabled
  then update_where_id item_id (set_suppression 1 (Some now) code) db
  else update_where_id item_id (set_suppression 0 None 0) db.

(* ===================================================================== *)
(** * core.py: MediaManager *)
(* ===================================================================== *)

(** Why [add_or_update] raises [ValueError]. *)
Inductive invalid :=
  | RequiredMissing (field : string)
  | RequiredEmpty (field : string)
  | InvalidType
  | InvalidSource
  | NotNumeric (field : string)
  | Negative (field : string).

Inductive exn :=
  | ValueError (why : invalid)
  | TypeError.

Definition get_by_provider (p s : pyval) (db : Database) : option MediaItem :=
  match to_text s with
  | Some s' => find (same_fingerprint (to_text p) s') (rows db)
  | None => None
  end.

Definition required_fields : list string := ["type"; "source"; "provider_id"].

Definition allowed_types : list string :=
  ["movie"; "series"; "music"; "clip"; "podcast"; "audiobook"; "document"; "file"].

(** The single quote, the double quote, the semicolon and two dashes. *)
Definition forbidden_in_source : list string :=
  ["'"; Text.chr 34; ";"; "--"].

(** A step of the validation: the dict as the step leaves it (the dict is
    changed in place, also when the step raises) and what it raises. *)
Definition checked := (dict * option exn)%type.

Definition and_then (r : checked) (k : dict -> checked) : checked :=
  match r with
  | (d, None) => k d
  | (d, Some e) => (d, Some e)
  end.

Fixpoint check_required (fields : list string) (data : dict) : option exn :=
  match fields with
  | [] => None
  | field :: rest =>
      match data !! field with
      | None => Some (ValueError (RequiredMissing field))
      | Some v =>
          if truthy v then check_required rest data
          else Some (ValueError (RequiredEmpty field))
      end
  end.

Definition check_type (data : dict) : option exn :=
  if existsb (eq_str (get data "type")) allowed_types then None
  else Some (ValueError InvalidType).

Definition check_source (data : dict) : option exn :=
  if existsb (fun c => Text.contains c (py_str (get data "source"))) forbidden_in_source
  then Some (ValueError InvalidSource)
  else None.

(** A title of more than 500 characters is cut; [len] of a title that is
    not a string raises [TypeError]. *)
Definition limit_title (data : dict) : checked :=
  match data !! "title" with
  | Some v =>
      if truthy v then
        match v with
        | PStr s =>
            if (500 <? String.length s)%nat
            then (<["title" := PStr (Text.take 497 s +:+ "...")]> data, None)
            else (data, None)
        | _ => (data, Some TypeError)
        end
      else (data, None)
  | None => (data, None)
  end.

Definition check_numeric (field : string) (data : dict) : checked :=
  match data !! field with
  | Some v =>
      if is_none v then (data, None)
      else match py_int v with
           | None => (data, Some (ValueError (NotNumeric field)))
           | Some z =>
               let data' := <[field := PInt z]> data in
               if z <? 0 then (data', Some (ValueError (Negative field)))
               else (data', None)
           end
  | None => (data, None)
  end.

(** The block between INPUT VALIDATION and END VALIDATION. *)
Definition validate (data : dict) : checked :=
  match check_required required_fields data with
  | Some e => (data, Some e)
  | None =>
  match check_type data with
  | Some e => (data, Some e)
  | None =>
  match check_source data with
  | Some e => (data, Some e)
  | None =>
      and_then (limit_title data) (fun d1 =>
      and_then (check_numeric "length_seconds" d1) (fun d2 =>
      and_then (check_numeric "season" d2) (fun d3 =>
      check_numeric "episode" d3)))
  end end end.

(** What [metadata.fetch_metadata(url)] does: it raises, or returns
    [None] or a dict. *)
Inductive fetched :=
  | FetchRaises
  | FetchReturns (meta : option dict).

(** What one call of [add_or_update] reads from outside the database. *)
Record Env := {
  now : datetime;
  HAS_METADATA : bool;
  (** [HAS_CONFIG and cfg.config.get("auto_fetch_metadata", True)] *)
  auto_fetch_enabled : bool;
  fetch_metadata : string -> fetched
}.

Definition url_to_check (data : dict) : option string :=
  let pid := py_str (get data "provider_id") in
  if eq_str (get data "source") "youtube"
  then Some ("https://www.youtube.com/watch?v=" +:+ pid)
  else if eq_str (get data "source") "netflix"
  then Some ("https://www.netflix.com/watch/" +:+ pid)
  else if eq_str (get data "source") "spotify"
  then Some ("https://open.spotify.com/track/" +:+ pid)
  else None.

(** [if meta.get(k): data[k] = meta[k]] *)
Definition take_over (k : string) (meta data : dict) : dict :=
  if truthy (get meta k) then <[k := get meta k]> data else data.

Definition enrich (env : Env) (data : dict) (origin : pyval) : dict :=
  let should_fetch_meta :=
    HAS_METADATA env && auto_fetch_enabled env
    && truthy (get_default data "has_real_id" (PBool false))
    && eq_str origin "external" in
  if should_fetch_meta then
    match url_to_check data with
    | Some url =>
        match fetch_metadata env url with
        | FetchReturns (Some meta) =>
            if bool_decide (meta = ∅) then data
            else take_over "thumbnail_url" meta
                   (take_over "description" meta
                     (take_over "title" meta data))
        | FetchReturns None => data
        | FetchRaises => data
        end
    | None => data
    end
  else data.

(** The parameters of the INSERT. *)
Definition new_row (t : datetime) (data : dict) : NewRow :=
  {| n_title := to_text (get_default data "title" (PStr "Unbekannt"));
     n_type := to_text (get data "type");
     n_source := to_text (get data "source");
     n_provider_id := to_text (get data "provider_id");
     n_length_seconds := to_integer (get data "length_seconds");
     n_last_opened_at := Some t;
     n_open_method := to_text (get_default data "open_method" (PStr "auto"));
     n_is_local_file := if truthy (get data "is_local_file") then 1 else 0;
     n_local_path := to_text (get data "local_path");
     n_description := to_text (get data "description");
     n_thumbnail_url := to_text (get data "thumbnail_url");
     n_season := to_integer (get data "season");
     n_episode := to_integer (get data "episode");
     n_artist := to_text (get data "artist");
     n_album := to_text (get data "album");
     n_channel := to_text (get data "channel") |}.

(** What a call of [add_or_update] leaves behind. *)
Record Outcome := {
  raised : option exn;
  data_out : dict;
  db_out : Database
}.

Definition add_or_update (env : Env) (data : dict) (origin : pyval)
    (db : Database) : Outcome :=
  match validate data with
  | (d, Some e) => {| raised := Some e; data_out := d; db_out := db |}
  | (d, None) =>
      match get_by_provider (get d "provider_id") (get d "source") db with
      | Some existing =>
          if (blacklist_flag existing =? 1) && eq_str origin "external"
          then {| raised := None; data_out := d; db_out := db |}
          else {| raised := None; data_out := d;
                  db_out := update_where_id (id existing)
                              (set_opened (now env) (to_text (get d "open_method")))
                              db |}
      | None =>
          let d' := enrich env d origin in
          match insert (now env) (new_row (now env) d') db with
          | Some db' => {| raised := None; data_out := d'; db_out := db' |}
          | None => {| raised := None; data_out := d'; db_out := db |}
          end
      end
  end.

(* ===================================================================== *)
(** * core.py: EventProcessor *)
(* ===================================================================== *)

Definition process_event (env : Env) (event : dict) (db : Database) : Outcome :=
  add_or_update env event (get_default event "origin" (PStr "external")) db.

(* ===================================================================== *)
(** * providers.py *)
(* ===================================================================== *)

Module Re.

(** [pattern.search(s)]: the match at the leftmost position that has
    one; [at_start] is the match of the pattern at the start of a text. *)
Fixpoint search {A} (at_start : string -> option A) (s : string) : option A :=
  match at_start s with
  | Some a => Some a
  | None =>
      match s with
      | EmptyString => None
      | String _ r => search at_start r
      end
  end.

(** [[class]+] followed by the rest of a pattern. The repetition is
    greedy; in every pattern of the program what follows it is either the
    end of the pattern or a character outside the class, so a shorter
    repetition never succeeds where the longest fails. *)
Definition plus {A} (cls : ascii -> bool) (k : string -> string -> option A)
    (s : string) : option A :=
  match Text.span cls s with
  | (EmptyString, _) => None
  | (run, rest) => k run rest
  end.

(** A literal followed by the rest of a pattern. *)
Definition lit {A} (p : string) (k : string -> option A) (s : string) : option A :=
  match Text.strip_prefix p s with
  | Some rest => k rest
  | None => None
  end.

(** [(a|b|c)] followed by the rest of a pattern: the alternatives in
    order, the next one when the rest fails. *)
Fixpoint alt {A} (alts : list string) (k : string -> string -> option A)
    (s : string) : option A :=
  match alts with
  | [] => None
  | a :: more =>
      match lit a (k a) s with
      | Some r => Some r
      | None => alt more k s
      end
  end.

(** [+] at the end of a pattern, captured. *)
Definition group_end (cls : ascii -> bool) : string -> option string :=
  plus cls (fun run _ => Some run).

Definition word (c : ascii) : bool := Text.is_alnum c || Ascii.eqb c "_".
Definition word_or_dash (c : ascii) : bool := word c || Ascii.eqb c "-".
Definition alnum_or_dash (c : ascii) : bool := Text.is_alnum c || Ascii.eqb c "-".
Definition lower_or_digit (c : ascii) : bool := Text.is_lower c || Text.is_digit c.
Definition not_slash (c : ascii) : bool := negb (Ascii.eqb c "/").

(** [netflix\.com/watch/(\d+)] *)
Definition netflix : string -> option string :=
  search (lit "netflix.com/watch/" (group_end Text.is_digit)).

(** [youtube\.com/watch\?v=([A-Za-z0-9_-]+)] *)
Definition youtube : string -> option string :=
  search (lit "youtube.com/watch?v=" (group_end word_or_dash)).

(** [open\.spotify\.com/(track|album|playlist)/([a-zA-Z0-9]+)], with
    both groups. *)
Definition spotify : string -> option (string * string) :=
  search (lit "open.spotify.com/"
           (alt ["track"; "album"; "playlist"] (fun kind =>
             lit "/" (plus Text.is_alnum (fun run _ => Some (kind, run)))))).

(** [disneyplus\.com/video/([a-zA-Z0-9-]+)] *)
Definition disney : string -> option string :=
  search (lit "disneyplus.com/video/" (group_end alnum_or_dash)).

(** [primevideo\.com/detail/([a-zA-Z0-9]+)] *)
Definition prime : string -> option string :=
  search (lit "primevideo.com/detail/" (group_end Text.is_alnum)).

(** [amazon\.[a-z]+/gp/video/detail/([a-zA-Z0-9]+)] *)
Definition prime_watch : string -> option string :=
  search (lit "amazon."
           (plus Text.is_lower (fun _ =>
             lit "/gp/video/detail/" (group_end Text.is_alnum)))).

(** [tv\.apple\.com/[a-z]+/(?:movie|show|episode)/[^/]+/([a-z0-9]+)] *)
Definition appletv : string -> option string :=
  search (lit "tv.apple.com/"
           (plus Text.is_lower (fun _ =>
             lit "/" (alt ["movie"; "show"; "episode"] (fun _ =>
               lit "/" (plus not_slash (fun _ =>
                 lit "/" (group_end lower_or_digit)))))))).

(** [twitch\.tv/([a-zA-Z0-9_]+)] *)
Definition twitch : string -> option string :=
  search (lit "twitch.tv/" (group_end word)).

(** The match of [ und \d+ weitere Seiten] at the start of a text, as
    the number of characters it covers. *)
Definition more_tabs (s : string) : option nat :=
  lit " und " (plus Text.is_digit (fun run =>
    lit " weitere Seiten" (fun _ => Some (5 + String.length run + 15)%nat))) s.

(** [re.sub(r" und \d+ weitere Seiten", "", s)]: [skip] characters of a
    match are still to be dropped. *)
Fixpoint drop_more_tabs (skip : nat) (s : string) : string :=
  match s with
  | EmptyString => EmptyString
  | String c r =>
      match skip with
      | S k => drop_more_tabs k r
      | O =>
          match more_tabs s with
          | Some (S n) => drop_more_tabs n r
          | _ => String c (drop_more_tabs 0 r)
          end
      end
  end.

End Re.

(** The browser endings of [clean_window_title]. The list of the program
    has a fourth entry, for Microsoft Edge, which contains the character
    U+200B; no text over the alphabet of this embedding contains it, and
    [title.split(browser)[0]] leaves such a text as it is. *)
Definition browser_endings : list string :=
  [" - Pers" +:+ Text.chr 246 +:+ "nlich"; " - Google Chrome"; " - Mozilla Firefox"].

(** [None] is the answer for a window of the application itself. *)
Definition clean_window_title (title : string) (remove_phrases : list string)
    : option string :=
  if Text.contains "MediaBrain" title then None
  else
    let t1 := Re.drop_more_tabs 0 title in
    let t2 := fold_left (fun t phrase =>
                if Text.contains phrase t then Text.before_first phrase t else t)
                remove_phrases t1 in
    let t3 := fold_left (fun t browser => Text.before_first browser t)
                browser_endings t2 in
    Some (Text.strip t3).

Inductive Provider :=
  | NetflixProvider
  | DisneyPlusProvider
  | AmazonPrimeProvider
  | AppleTVProvider
  | YouTubeProvider
  | TwitchProvider
  | SpotifyProvider
  | LocalProvider.

#[global] Instance Provider_eq_dec : EqDecision Provider.
Proof. solve_decision. Defined.

Definition name (p : Provider) : string :=
  match p with
  | NetflixProvider => "Netflix"
  | DisneyPlusProvider => "Disney+"
  | AmazonPrimeProvider => "Amazon Prime"
  | AppleTVProvider => "Apple TV+"
  | YouTubeProvider => "YouTube"
  | TwitchProvider => "Twitch"
  | SpotifyProvider => "Spotify"
  | LocalProvider => "Local"
  end.

Definition source_of (p : Provider) : string :=
  match p with
  | NetflixProvider => "netflix"
  | DisneyPlusProvider => "disney"
  | AmazonPrimeProvider => "prime"
  | AppleTVProvider => "appletv"
  | YouTubeProvider => "youtube"
  | TwitchProvider => "twitch"
  | SpotifyProvider => "spotify"
  | LocalProvider => "local"
  end.

Definition overview : string := Text.chr 220 +:+ "bersicht".

Definition mk_dict (l : list (string * pyval)) : dict := list_to_map l.

(** The result for a recognised window title. *)
Definition title_result (title default_type src : string) : dict :=
  mk_dict [("title", PStr title); ("type", PStr default_type);
           ("source", PStr src); ("provider_id", PStr title);
           ("description", PStr "Automatisch erkannt (Browser)");
           ("has_real_id", PBool false)].

Definition _build_fallback_result (p : Provider) (source_string : string)
    (clean_phrases : list string) (default_type : string)
    (overview_names : list string) : option dict :=
  match clean_window_title source_string clean_phrases with
  | None => None
  | Some EmptyString => None
  | Some title =>
      let title :=
        if existsb (String.eqb title) overview_names
        then name p +:+ " " +:+ overview else title in
      Some (title_result title default_type (source_of p))
  end.

(** [str.title] on a word of ASCII letters (the program applies it to
    the first group of the Spotify pattern only). *)
Definition title_case (s : string) : string :=
  match s with
  | EmptyString => EmptyString
  | String c r =>
      String (if Text.is_lower c then ascii_of_N (Text.code c - 32) else c)
             (Text.lower r)
  end.

(** [SUPPORTED.get(suffix, "file")] *)
Definition SUPPORTED (suffix : string) : string :=
  if existsb (String.eqb suffix) [".mp4"; ".mkv"; ".avi"; ".mov"; ".wmv"] then "movie"
  else if String.eqb suffix ".webm" then "clip"
  else if existsb (String.eqb suffix) [".mp3"; ".flac"; ".wav"; ".m4a"; ".aac"; ".ogg"]
  then "music"
  else if existsb (String.eqb suffix) [".pdf"; ".epub"] then "document"
  else if String.eqb suffix ".m4b" then "audiobook"
  else "file".

(** What [pathlib] answers about a path. *)
Record FileSystem := {
  (** [Path(s).exists() and Path(s).is_file()], [False] on an error *)
  is_file : string -> bool;
  (** [Path(s).suffix] *)
  suffix : string -> string;
  (** [Path(s).stem] *)
  stem : string -> string;
  (** [str(Path(s).resolve())] *)
  resolve : string -> string
}.

Section Providers.

Variable fs : FileSystem.

Definition matches (p : Provider) (s : string) : bool :=
  match p with
  | NetflixProvider =>
      bool_decide (is_Some (Re.netflix s))
      || (Text.contains "Netflix" s && negb (Text.contains "Netflix Party" s))
  | DisneyPlusProvider =>
      bool_decide (is_Some (Re.disney s))
      || Text.contains "Disney+" s
      || Text.contains "disneyplus" (Text.lower s)
  | AmazonPrimeProvider =>
      bool_decide (is_Some (Re.prime s))
      || bool_decide (is_Some (Re.prime_watch s))
      || Text.contains "Prime Video" s
      || Text.contains "primevideo" (Text.lower s)
  | AppleTVProvider =>
      bool_decide (is_Some (Re.appletv s))
      || Text.contains "Apple TV" s
      || Text.contains "tv.apple.com" (Text.lower s)
  | YouTubeProvider =>
      bool_decide (is_Some (Re.youtube s)) || Text.contains "YouTube" s
  | TwitchProvider =>
      bool_decide (is_Some (Re.twitch s)) || Text.contains "Twitch" s
  | SpotifyProvider =>
      Text.contains "Spotify" s || bool_decide (is_Some (Re.spotify s))
  | LocalProvider => is_file fs s
  end.

(** The title matcher that three of the providers write out by hand. *)
Definition title_fallback (s : string) (phrases overview_names : list string)
    (overview_title default_type src : string) : option dict :=
  match clean_window_title s phrases with
  | None => None
  | Some EmptyString => None
  | Some title =>
      let title :=
        if existsb (String.eqb title) overview_names then overview_title else title in
      Some (title_result title default_type src)
  end.

Definition extract_info (p : Provider) (s : string) : option dict :=
  match p with
  | NetflixProvider =>
      match Re.netflix s with
      | Some g1 =>
          Some (mk_dict [("title", PStr ("Netflix Inhalt " +:+ g1));
                         ("type", PStr "movie"); ("source", PStr "netflix");
                         ("provider_id", PStr g1); ("has_real_id", PBool true)])
      | None =>
          _build_fallback_result p s [" - Netflix"; " | Netflix"] "movie" ["Netflix"]
      end
  | YouTubeProvider =>
      match Re.youtube s with
      | Some pid =>
          Some (mk_dict [("title", PStr ("YouTube Video " +:+ pid));
                         ("type", PStr "clip"); ("source", PStr "youtube");
                         ("provider_id", PStr pid);
                         ("thumbnail_url",
                          PStr ("https://img.youtube.com/vi/" +:+ pid +:+ "/0.jpg"));
                         ("has_real_id", PBool true)])
      | None => _build_fallback_result p s [" - YouTube"] "clip" []
      end
  | SpotifyProvider =>
      match Re.spotify s with
      | Some (content_type, content_id) =>
          Some (mk_dict [("title", PStr ("Spotify " +:+ title_case content_type
                                          +:+ " " +:+ Text.take 8 content_id));
                         ("type", PStr "music"); ("source", PStr "spotify");
                         ("provider_id", PStr content_id);
                         ("has_real_id", PBool true)])
      | None => _build_fallback_result p s [" - Spotify"; " | Spotify"] "music" []
      end
  | DisneyPlusProvider =>
      match Re.disney s with
      | Some video_id =>
          Some (mk_dict [("title", PStr ("Disney+ Video " +:+ Text.take 12 video_id));
                         ("type", PStr "movie"); ("source", PStr "disney");
                         ("provider_id", PStr video_id);
                         ("has_real_id", PBool true)])
      | None =>
          _build_fallback_result p s [" - Disney+"; " | Disney+"; "Disney+ |"]
            "movie" ["Disney+"; "Disney Plus"]
      end
  | AmazonPrimeProvider =>
      match (match Re.prime s with Some g => Some g | None => Re.prime_watch s end) with
      | Some video_id =>
          Some (mk_dict [("title", PStr ("Prime Video " +:+ video_id));
                         ("type", PStr "movie"); ("source", PStr "prime");
                         ("provider_id", PStr video_id);
                         ("has_real_id", PBool true)])
      | None =>
          title_fallback s [" - Prime Video"; " | Prime Video"; "Prime Video -"]
            ["Prime Video"; "Amazon Prime Video"]
            ("Prime Video " +:+ overview) "movie" "prime"
      end
  | AppleTVProvider =>
      match Re.appletv s with
      | Some content_id =>
          Some (mk_dict [("title", PStr ("Apple TV+ " +:+ content_id));
                         ("type", PStr "movie"); ("source", PStr "appletv");
                         ("provider_id", PStr content_id);
                         ("has_real_id", PBool true)])
      | None =>
          title_fallback s [" - Apple TV+"; " | Apple TV+"; "Apple TV+ -"]
            ["Apple TV+"; "Apple TV"]
            ("Apple TV+ " +:+ overview) "movie" "appletv"
      end
  | TwitchProvider =>
      let by_title := title_fallback s [" - Twitch"] [] "" "clip" "twitch" in
      match Re.twitch s with
      | Some channel =>
          if negb (existsb (String.eqb (Text.lower channel))
                     ["directory"; "settings"; "videos"])
          then Some (mk_dict [("title", PStr ("Twitch: " +:+ channel));
                              ("type", PStr "clip"); ("source", PStr "twitch");
                              ("provider_id", PStr channel);
                              ("channel", PStr channel);
                              ("has_real_id", PBool true)])
          else by_title
      | None => by_title
      end
  | LocalProvider =>
      Some (mk_dict [("title", PStr (stem fs s));
                     ("type", PStr (SUPPORTED (Text.lower (suffix fs s))));
                     ("source", PStr "local");
                     ("provider_id", PStr (resolve fs s));
                     ("is_local_file", PBool true);
                     ("local_path", PStr (resolve fs s));
                     ("has_real_id", PBool true)])
  end.

(** [ProviderRegistry.providers] *)
Definition providers : list Provider :=
  [NetflixProvider; DisneyPlusProvider; AmazonPrimeProvider; AppleTVProvider;
   YouTubeProvider; TwitchProvider; SpotifyProvider; LocalProvider].

(** The loop of [identify] over a list of providers; [if result] is
    false for [None] (a dict of a provider is never empty). *)
Fixpoint identify_in (ps : list Provider) (source_string : string) : option dict :=
  match ps with
  | [] => None
  | p :: rest =>
      if matches p source_string then
        match extract_info p source_string with
        | Some result =>
            if bool_decide (result = ∅) then identify_in rest source_string
            else Some result
        | None => identify_in rest source_string
        end
      else identify_in rest source_string
  end.

Definition identify (source_string : string) : option dict :=
  identify_in providers source_string.

End Providers.

(* ===================================================================== *)
(** * background.py *)
(* ===================================================================== *)

Section Background.

Variable fs : FileSystem.

(** [EventDispatcher.dispatch]: the queue after the call. *)
Definition dispatch (source_string origin : string) (queue : list dict) : list dict :=
  match identify fs source_string with
  | None => queue
  | Some info =>
      if bool_decide (info = ∅) then queue
      else queue ++ [<["origin" := PStr origin]> info]
  end.

(** The state of a [WindowWatcher]; [dispatched] records the calls of
    [self.dispatcher.dispatch], the latest first. *)
Record WindowWatcher := {
  last_title : string;
  dispatched : list string;
  queue : list dict
}.

Definition new_watcher (queue : list dict) : WindowWatcher :=
  {| last_title := ""; dispatched := []; queue := queue |}.

(** One turn of the loop of [WindowWatcher.run] in which
    [get_active_window_title()] returns [title]. *)
Definition poll (w : WindowWatcher) (title : string) : WindowWatcher :=
  if negb (String.eqb title "") && negb (String.eqb title (last_title w))
  then {| last_title := title;
          dispatched := title :: dispatched w;
          queue := dispatch title "window_watcher" (queue w) |}
  else w.

(** The loop over the titles that the successive turns observe. *)
Definition run (titles : list string) (w : WindowWatcher) : WindowWatcher :=
  fold_left poll titles w.

(** Whether the turn that observes [title] calls the dispatcher. *)
Definition dispatches (w : WindowWatcher) (title : string) : bool :=
  bool_decide (dispatched (poll w title) <> dispatched w).

(** [FileIndexer._process_file] for a file whose resolved path is given
    by the file system; the state is [known_files] and the queue. *)
Definition indexed_suffixes : list string :=
  [".mp3"; ".mp4"; ".mkv"; ".avi"; ".flac"; ".wav"; ".pdf"; ".epub"; ".m4b"].

Definition _process_file (file : string) (st : gset string * list dict)
    : gset string * list dict :=
  let '(known_files, queue) := st in
  if existsb (String.eqb (Text.lower (suffix fs file))) indexed_suffixes then
    let file_id := resolve fs file in
    if bool_decide (file_id ∈ known_files) then st
    else ({[file_id]} ∪ known_files, dispatch file_id "file_indexer" queue)
  else st.

End Background.

(* ===================================================================== *)
(** * MediaBrain.py: the event loop *)
(* ===================================================================== *)

(** What a tick does besides changing the database and the queue. *)
Inductive effect :=
  | LogError (e : exn)
  | RefreshAllViews.

#[global] Instance invalid_eq_dec : EqDecision invalid.
Proof. solve_decision. Defined.
#[global] Instance exn_eq_dec : EqDecision exn.
Proof. solve_decision. Defined.
#[global] Instance effect_eq_dec : EqDecision effect.
Proof. solve_decision. Defined.

Record Tick := {
  tick_db : Database;
  tick_queue : list dict;
  has_updates : bool;
  effects : list effect
}.

(** The [while] loop of [process_queue]; [env i] is what the call of
    [process_event] for the item taken when [processed_count = i] reads
    from outside. *)
Fixpoint drain (env : nat -> Env) (processed_count : nat) (q : list dict)
    (st : Tick) : Tick :=
  match q with
  | [] => {| tick_db := tick_db st; tick_queue := []; has_updates := has_updates st;
             effects := effects st |}
  | event :: rest =>
      if (processed_count <? 50)%nat then
        let o := process_event (env processed_count) event (tick_db st) in
        drain env (S processed_count) rest
          match raised o with
          | None => {| tick_db := db_out o; tick_queue := rest;
                       has_updates := true; effects := effects st |}
          | Some e => {| tick_db := db_out o; tick_queue := rest;
                         has_updates := has_updates st;
                         effects := effects st ++ [LogError e] |}
          end
      else {| tick_db := tick_db st; tick_queue := q; has_updates := has_updates st;
              effects := effects st |}
  end.

Definition process_queue (env : nat -> Env) (q : list dict) (db : Database) : Tick :=
  let st := drain env 0 q {| tick_db := db; tick_queue := q; has_updates := false;
                             effects := [] |} in
  if has_updates st
  then {| tick_db := tick_db st; tick_queue := tick_queue st;
          has_updates := true; effects := effects st ++ [RefreshAllViews] |}
  else st.

(* ===================================================================== *)
(** * The specification's vocabulary *)
(* ===================================================================== *)

(** ** Validation (section 4.5) *)


(** A value is coercible to a non-negative integer. *)
Definition coercible_nonneg (v : pyval) : Prop :=
  exists z, py_int v = Some z /\ 0 <= z.



(** ** Suppression (section 4.6) *)

(** The duration table for the codes 1 to 5. *)
Definition duration (code : Z) : Z :=
  match code with
  | 1 => days 1
  | 2 => 7 * days 1
  | 3 => days 30
  | 4 => days 90
  | 5 => days 365
  | _ => 0
  end.

Definition row_with_id (i : Z) (db : Database) : option MediaItem :=
  find (fun r => id r =? i) (rows db).

(** The state [inactive]. *)
Definition inactive (r : MediaItem) : Prop :=
  blacklist_flag r = 0 /\ procedure_code r = 0 /\ blacklisted_at r = None.

(** The invariant of the data model:
    [suppression_code == 0 <=> blacklisted == false <=> blacklisted_at == null]. *)
Definition suppression_invariant (r : MediaItem) : Prop :=
  (procedure_code r = 0 <-> blacklist_flag r = 0)
  /\ (blacklist_flag r = 0 <-> blacklisted_at r = None).

(** The states that the core operations reach from an empty catalogue,
    when [suppress] is called with the codes that satisfy [code_ok]. *)
Inductive reachable (code_ok : Z -> Prop) : Database -> Prop :=
  | reach_empty : reachable code_ok empty_db
  | reach_ingest env data origin db :
      reachable code_ok db ->
      reachable code_ok (db_out (add_or_update env data origin db))
  | reach_suppress item_id code t db :
      reachable code_ok db -> code_ok code ->
      reachable code_ok (set_blacklist item_id true code t db)
  | reach_lift item_id code t db :
      reachable code_ok db ->
      reachable code_ok (set_blacklist item_id false code t db)
  | reach_sweep clock db :
      reachable code_ok db ->
      reachable code_ok (refresh_blacklist clock db).

(** ** Ingestion (section 4.5) *)


(** The record is suppressed and the signal is external: the case in
    which ingestion ignores the signal. *)
Definition ignored (existing : MediaItem) (origin : pyval) : bool :=
  (blacklist_flag existing =? 1) && eq_str origin "external".

(** Two rows agree on every column but [last_opened_at] and
    [open_method]. *)
Definition same_but_opened (r r' : MediaItem) : Prop :=
  id r' = id r /\ title r' = title r /\ type r' = type r
  /\ source r' = source r /\ provider_id r' = provider_id r
  /\ length_seconds r' = length_seconds r /\ created_at r' = created_at r
  /\ is_favorite r' = is_favorite r /\ is_local_file r' = is_local_file r
  /\ local_path r' = local_path r /\ description r' = description r
  /\ thumbnail_url r' = thumbnail_url r /\ season r' = season r
  /\ episode r' = episode r /\ artist r' = artist r /\ album r' = album r
  /\ channel r' = channel r /\ blacklist_flag r' = blacklist_flag r
  /\ blacklisted_at r' = blacklisted_at r
  /\ procedure_code r' = procedure_code r.

(** ** The ingestion loop (section 4.4) *)

(** The items of a batch applied one after the other, whatever each of
    them raises; [i] is the number of the first one. *)
Fixpoint apply_batch (env : nat -> Env) (i : nat) (batch : list dict)
    (db : Database) : Database :=
  match batch with
  | [] => db
  | event :: rest =>
      apply_batch env (S i) rest (db_out (process_event (env i) event db))
  end.

(** What the items of a batch raise, in order. *)
Fixpoint batch_errors (env : nat -> Env) (i : nat) (batch : list dict)
    (db : Database) : list exn :=
  match batch with
  | [] => []
  | event :: rest =>
      let o := process_event (env i) event db in
      match raised o with
      | Some e => e :: batch_errors env (S i) rest (db_out o)
      | None => batch_errors env (S i) rest (db_out o)
      end
  end.

(** The item number [i] of a batch changes the database. *)
Definition item_changes (env : nat -> Env) (batch : list dict) (db : Database)
    (i : nat) : Prop :=
  exists event, batch !! i = Some event
    /\ let before := apply_batch env 0 (take i batch) db in
       db_out (process_event (env i) event before) <> before.

Definition refreshes (t : Tick) : nat :=
  length (List.filter (fun e => bool_decide (e = RefreshAllViews)) (effects t)).

(** ** The classifiers (sections 4.1 and 4.2) *)

(** The structural patterns of the services. *)
Inductive Pattern :=
  | NetflixWatch
  | DisneyVideo
  | PrimeDetail
  | AmazonDetail
  | AppleTVContent
  | YouTubeWatch
  | TwitchChannel
  | SpotifyContent.

Definition owner (pat : Pattern) : Provider :=
  match pat with
  | NetflixWatch => NetflixProvider
  | DisneyVideo => DisneyPlusProvider
  | PrimeDetail | AmazonDetail => AmazonPrimeProvider
  | AppleTVContent => AppleTVProvider
  | YouTubeWatch => YouTubeProvider
  | TwitchChannel => TwitchProvider
  | SpotifyContent => SpotifyProvider
  end.

(** The identifier that a pattern captures in a text. *)
Definition captured (pat : Pattern) (t : string) : option string :=
  match pat with
  | NetflixWatch => Re.netflix t
  | DisneyVideo => Re.disney t
  | PrimeDetail => Re.prime t
  | AmazonDetail => Re.prime_watch t
  | AppleTVContent => Re.appletv t
  | YouTubeWatch => Re.youtube t
  | TwitchChannel => Re.twitch t
  | SpotifyContent => snd <$> Re.spotify t
  end.

(** The providers that the registry asks before a given one. *)
Fixpoint asked_before (p : Provider) (ps : list Provider) : list Provider :=
  match ps with
  | [] => []
  | q :: rest => if bool_decide (q = p) then [] else q :: asked_before p rest
  end.

(** A provider has no answer for a text. *)
Definition declines (fs : FileSystem) (q : Provider) (t : string) : Prop :=
  matches fs q t = false \/ extract_info fs q t = None.

(** The pages of Twitch that are not channels. *)
Definition twitch_system_pages : list string := ["directory"; "settings"; "videos"].

(** ** The window poller (section 4.3) *)

(** The title observed just before the observation number [i]. *)
Definition preceding (titles : list string) (i : nat) : option string :=
  match i with
  | O => None
  | S j => titles !! j
  end.

(** The last non-empty title of a sequence of observations, the empty
    title when there is none. *)
Definition last_nonempty (titles : list string) : string :=
  fold_left (fun last t => if String.eqb t "" then last else t) titles "".

(** ** Auxiliary notions *)

(** Membership in a list that is written out. *)
Ltac in_list :=
  solve [repeat first [apply list_elem_of_here | apply list_elem_of_further]].

(** The elements of a list that is written out, one goal for each. *)
Ltac each_of H :=
  repeat (apply elem_of_cons in H as [-> | H]); [.. | by apply elem_of_nil in H].

(** A numeric field is present and not coercible to a non-negative
    integer. *)
Definition numeric_bad (d : dict) (k : string) : Prop :=
  exists v, d !! k = Some v /\ v <> PNone /\ ~ coercible_nonneg v.

(** What is raised is a validation error. *)
Definition raises_value_error (e : option exn) : Prop :=
  exists w, e = Some (ValueError w).

(** The keys that validation may rewrite. *)
Definition rewritten_by_validation : list string :=
  ["title"; "length_seconds"; "season"; "episode"].

(** The UPDATE of the update path. *)
Definition reopen (t : datetime) (d : dict) (r : MediaItem) : MediaItem :=
  set_opened t (to_text (get d "open_method")) r.

(** The row has an expiry that the reading [t] of the clock is past. *)
Definition expired (t : datetime) (row : MediaItem) : bool :=
  match blacklisted_at row with
  | None => false
  | Some start =>
      match _expiry_date start (procedure_code row) with
      | Some expiry => expiry <? t
      | None => false
      end
  end.

(** What a sweep does to one row. *)
Definition sweep_row (clock : Z -> datetime) (r : MediaItem) : MediaItem :=
  if bool_decide (blacklist_flag r = 1) && expired (clock (id r)) r
  then set_suppression 0 None 0 r else r.

(** The primary key: no two rows have the same id. *)
Definition unique_ids (db : Database) : Prop := NoDup (map id (rows db)).

(** Some item of a batch is processed without raising. *)
Fixpoint batch_applied (env : nat -> Env) (i : nat) (batch : list dict)
    (db : Database) : bool :=
  match batch with
  | [] => false
  | event :: rest =>
      let o := process_event (env i) event db in
      bool_decide (raised o = None) || batch_applied env (S i) rest (db_out o)
  end.

(** The title kept after one more observation. *)
Definition keep_nonempty (last t : string) : string :=
  if String.eqb t "" then last else t.

(** ** Sample inputs *)

(** A call at time [t] with the metadata service switched off. *)
Definition offline (t : datetime) : Env :=
  {| now := t; HAS_METADATA := false; auto_fetch_enabled := false;
     fetch_metadata := fun _ => FetchRaises |}.

(** The result of the Netflix classifier for
    [https://www.netflix.com/watch/80057281]. *)
Definition stranger_things : dict :=
  mk_dict [("title", PStr "Netflix Inhalt 80057281"); ("type", PStr "movie");
           ("source", PStr "netflix"); ("provider_id", PStr "80057281");
           ("has_real_id", PBool true)].

(** A catalogue with that one record, opened at time 1000. *)
Definition one_record : Database :=
  db_out (add_or_update (offline 1000) stranger_things (PStr "external") empty_db).

(** The row of [one_record]. *)
Definition one_row : MediaItem :=
  {| id := 1; title := "Netflix Inhalt 80057281"; type := "movie";
     source := "netflix"; provider_id := Some "80057281";
     length_seconds := None; created_at := 1000; last_opened_at := Some 1000;
     open_method := Some "auto"; is_favorite := 0; is_local_file := 0;
     local_path := None; description := None; thumbnail_url := None;
     season := None; episode := None; artist := None; album := None;
     channel := None; blacklist_flag := 0; blacklisted_at := None;
     procedure_code := 0 |}.

(** A suppressed copy of [one_record]: blacklisted for ever at time 2000. *)
Definition one_suppressed_record : Database :=
  set_blacklist 1 true 6 2000 one_record.

(** The same record suppressed for a week at time 2000. *)
Definition week_row : MediaItem := set_suppression 1 (Some 2000) 2 one_row.

(** The catalogue with that record. *)
Definition week_db : Database := {| rows := [week_row]; seq := 1 |}.

(** An identification with a negative length. *)
Definition negative_length : dict :=
  mk_dict [("title", PStr "Negative Length"); ("type", PStr "movie");
           ("source", PStr "netflix"); ("provider_id", PStr "88888");
           ("length_seconds", PInt (-100))].

(** A file system without files. *)
Definition no_files : FileSystem :=
  {| is_file := fun _ => false; suffix := fun _ => ""; stem := fun s => s;
     resolve := fun s => s |}.

(** The queue after the window watcher has seen the address of the
    record of [one_record] in the title of the foreground window. *)
Definition watched_queue : list dict :=
  queue (poll no_files (new_watcher []) "https://www.netflix.com/watch/80057281").

(** A file system in which every path is a file with the suffix [.mp3]
    that resolves to itself. *)
Definition music_folder : FileSystem :=
  {| is_file := fun _ => true; suffix := fun _ => ".mp3";
     stem := fun s => s; resolve := fun s => s |}.

(** The paths [/music/1.mp3] to [/music/50.mp3]. *)
Definition fifty_files : list string :=
  map (fun n => "/music/" +:+ pretty n +:+ ".mp3") (seqZ 1 50).

(** The queue after the file indexer has seen these files for the first
    time. *)
Definition fifty_signals : list dict :=
  snd (fold_left (fun st file => _process_file music_folder file st)
         fifty_files (∅, [])).

(* ===================================================================== *)
(** * Further code and notions *)
(* ===================================================================== *)

(** ** The catalogue as a whole *)

(** The fingerprint of a row whose provider_id is not NULL. *)
Definition fingerprint (r : MediaItem) : option (string * string) :=
  (fun p => (p, source r)) <$> provider_id r.

(** The fingerprints of the rows of a table. *)
Definition fingerprints (db : Database) : list (string * string) :=
  omap fingerprint (rows db).

(** What the schema promises: the primary key, the UNIQUE constraint on
    (provider_id, source), and ids that AUTOINCREMENT has handed out. *)
Definition well_formed (db : Database) : Prop :=
  NoDup (map id (rows db))
  /\ NoDup (fingerprints db)
  /\ 0 <= seq db
  /\ Forall (fun r => 1 <= id r <= seq db) (rows db).

(** Two rows agree on every column but the three of the suppression. *)
Definition same_but_suppression (r r' : MediaItem) : Prop :=
  id r' = id r /\ title r' = title r /\ type r' = type r
  /\ source r' = source r /\ provider_id r' = provider_id r
  /\ length_seconds r' = length_seconds r /\ created_at r' = created_at r
  /\ last_opened_at r' = last_opened_at r /\ open_method r' = open_method r
  /\ is_favorite r' = is_favorite r /\ is_local_file r' = is_local_file r
  /\ local_path r' = local_path r /\ description r' = description r
  /\ thumbnail_url r' = thumbnail_url r /\ season r' = season r
  /\ episode r' = episode r /\ artist r' = artist r /\ album r' = album r
  /\ channel r' = channel r.

(** ** The registry *)

(** [ProviderRegistry.get_provider_names] *)
Definition get_provider_names : list string := map name providers.

(** [ProviderRegistry.get_provider_by_source] *)
Definition get_provider_by_source (src : string) : option Provider :=
  find (fun p => String.eqb (source_of p) src) providers.

(** Text without white space at either end. *)
Definition trimmed (s : string) : Prop := Text.lstrip s = s /\ Text.rstrip s = s.

(** What every result of a provider has: a type of the allowed set, the
    source of the provider, a provider_id and a title that are text, the
    flag has_real_id, and none of the numeric fields nor an open_method.
    A result without a real id is a title match: its provider_id is its
    title, which is not empty and has no white space at either end. *)
Definition well_shaped (p : Provider) (r : dict) : Prop :=
  exists ty pid ti hr,
    r !! "type" = Some (PStr ty) /\ ty ∈ allowed_types
    /\ r !! "source" = Some (PStr (source_of p))
    /\ r !! "provider_id" = Some (PStr pid)
    /\ r !! "title" = Some (PStr ti)
    /\ r !! "has_real_id" = Some (PBool hr)
    /\ (hr = false -> pid = ti /\ ti <> "" /\ trimmed ti)
    /\ (p <> LocalProvider -> pid <> "")
    /\ r !! "length_seconds" = None /\ r !! "season" = None
    /\ r !! "episode" = None /\ r !! "open_method" = None.

(** ** background.py: the file indexer *)

(** A sequence of calls of [_process_file] on one indexer; the state is
    the set [known_files] and the queue of the event processor. (The
    loop of [_scan_recursive] is written to make these calls for the
    files of a folder. As the module stands it does not get as far as
    the first of them: [os] is imported inside [scan] only, so
    [os.scandir] raises a NameError, which [_scan_recursive] catches and
    logs.) *)
Definition process_files (fs : FileSystem) (files : list string)
    (st : gset string * list dict) : gset string * list dict :=
  fold_left (fun st file => _process_file fs file st) files st.

(** ** core.py: [MediaManager.list_by_type] *)

(** The order of [ORDER BY is_favorite DESC, last_opened_at DESC]: NULL
    sorts below every value, and the ISO texts of [last_opened_at]
    compare as the times they stand for. [listed_before a b] says that
    [a] may stand before [b]. *)
Definition opened_leb (a b : option datetime) : bool :=
  match a, b with
  | None, _ => true
  | Some _, None => false
  | Some x, Some y => x <=? y
  end.

Definition listed_before (a b : MediaItem) : bool :=
  (is_favorite b <? is_favorite a)
  || ((is_favorite b =? is_favorite a)
      && opened_leb (last_opened_at b) (last_opened_at a)).

(** SQL leaves the order of rows with equal keys open; here they keep
    the order of the table. *)
Fixpoint place (r : MediaItem) (l : list MediaItem) : list MediaItem :=
  match l with
  | [] => [r]
  | x :: l' => if listed_before r x then r :: l else x :: place r l'
  end.

Definition order_by (l : list MediaItem) : list MediaItem := foldr place [] l.

(** [WHERE type = ? AND blacklist_flag = 0]; a NULL parameter selects no
    row. *)
Definition list_by_type (media_type : pyval) (db : Database) : list MediaItem :=
  order_by (filter (fun r => to_text media_type = Some (type r)
                             /\ blacklist_flag r = 0) (rows db)).

(** A list in the order of the query: every element may stand before
    each later one. *)
Fixpoint in_listing_order (l : list MediaItem) : Prop :=
  match l with
  | [] => True
  | x :: l' => Forall (fun y => listed_before x y = true) l' /\ in_listing_order l'
  end.

(** ** MediaBrain.py: the timer *)

(** The timer of [_start_event_loop] calls [process_queue] again and
    again. [arrivals k] is what the background threads have put on the
    queue when tick [k] starts, since the tick before; [env k] is what
    tick [k] reads from outside. The result is the database, the queue
    and the effects after [n] ticks from tick [k] on. *)
Fixpoint run_ticks (env : nat -> nat -> Env) (arrivals : nat -> list dict)
    (k n : nat) (q : list dict) (db : Database)
    : Database * list dict * list effect :=
  match n with
  | O => (db, q, [])
  | S n' =>
      let t := process_queue (env k) (q ++ arrivals k) db in
      let '(db', q', es) := run_ticks env arrivals (S k) n' (tick_queue t) (tick_db t) in
      (db', q', effects t ++ es)
  end.

(** Events handled one after the other, each with what its call reads
    from outside, whatever each of them raises. *)
Definition apply_events (l : list (Env * dict)) (db : Database) : Database :=
  fold_left (fun db ee => db_out (process_event (fst ee) (snd ee) db)) l db.

(** Everything that is put on the queue before tick [k + n]. *)
Fixpoint arrived (arrivals : nat -> list dict) (k n : nat) : list dict :=
  match n with
  | O => []
  | S n' => arrivals k ++ arrived arrivals (S k) n'
  end.

(** ** core.py: OpenHandler *)

(** [f"{item.provider_id}"]: a NULL column is formatted as [None]. *)
Definition fmt (v : option string) : string := default "None" v.

Definition _build_browser_url (item : MediaItem) : option string :=
  if String.eqb (source item) "netflix"
  then Some ("https://www.netflix.com/watch/" +:+ fmt (provider_id item))
  else if String.eqb (source item) "youtube"
  then Some ("https://www.youtube.com/watch?v=" +:+ fmt (provider_id item))
  else if String.eqb (source item) "spotify"
  then Some ("https://open.spotify.com/track/" +:+ fmt (provider_id item))
  else None.

Definition _build_deep_link (item : MediaItem) : option string :=
  if String.eqb (source item) "netflix"
  then Some ("netflix://title/" +:+ fmt (provider_id item))
  else if String.eqb (source item) "spotify"
  then Some ("spotify:track:" +:+ fmt (provider_id item))
  else if String.eqb (source item) "youtube"
  then Some ("vnd.youtube:" +:+ fmt (provider_id item))
  else None.

(** Every character of a text is of a class. *)
Fixpoint all_in (cls : ascii -> bool) (s : string) : bool :=
  match s with
  | EmptyString => true
  | String c r => cls c && all_in cls r
  end.

(** The ids that the address of [_build_browser_url] leads back to: of
    the form that the pattern of the service captures, and without the
    names by which a provider that is asked earlier claims a text. *)
Definition addressable (src pid : string) : Prop :=
  pid <> ""
  /\ ((src = "netflix" /\ all_in Text.is_digit pid = true)
      \/ (src = "youtube" /\ all_in Re.word_or_dash pid = true
          /\ Text.contains "Netflix" pid = false
          /\ Text.contains "disneyplus" (Text.lower pid) = false
          /\ Text.contains "primevideo" (Text.lower pid) = false)
      \/ (src = "spotify" /\ all_in Text.is_alnum pid = true
          /\ Text.contains "Netflix" pid = false
          /\ Text.contains "disneyplus" (Text.lower pid) = false
          /\ Text.contains "primevideo" (Text.lower pid) = false
          /\ Text.contains "YouTube" pid = false
          /\ Text.contains "Twitch" pid = false)).





(** ** config.py: [Config.get] and [Config.set] *)

(** What [json.load] returns: a finite float is [m * 2^e], and neither
    function looks inside a number. *)
#[warnings="-register-all"]
Inductive json :=
  | JNull
  | JBool (b : bool)
  | JInt (n : Z)
  | JFloat (m e : Z)
  | JStr (s : string)
  | JList (l : list json)
  | JObj (m : gmap string json).

(** [s.split(sep)] for a separator of one character. *)
Fixpoint split_on (sep : ascii) (s : string) : list string :=
  match s with
  | EmptyString => [EmptyString]
  | String c r =>
      if Ascii.eqb c sep then EmptyString :: split_on sep r
      else match split_on sep r with
           | w :: ws => String c w :: ws
           | [] => [String c EmptyString]
           end
  end.

(** [x == key] for an element of a list and a key, which is text. *)
Definition is_text (key : string) (x : json) : bool :=
  match x with
  | JStr s => String.eqb s key
  | _ => false
  end.

(** The loop of [Config.get]. On a dict [key not in value] asks for the
    key, on a list for an element equal to it, on text for a part of the
    text equal to it, and it raises [TypeError] on everything else;
    [value[key]] raises [TypeError] on a list and on text. *)
Fixpoint get_keys (keys : list string) (value default : json) : json + exn :=
  match keys with
  | [] => inl value
  | key :: rest =>
      match value with
      | JObj m =>
          match m !! key with
          | Some v => get_keys rest v default
          | None => inl default
          end
      | JList l => if existsb (is_text key) l then inr TypeError else inl default
      | JStr s => if Text.contains key s then inr TypeError else inl default
      | _ => inr TypeError
      end
  end.

Definition config_get (path : string) (default settings : json) : json + exn :=
  get_keys (split_on "." path) settings default.

(** The loop of [Config.set] and the assignment after it, on the object
    that [obj] names; the dicts are changed in place, so the result is
    the object with its new content. On anything but a dict the test,
    the assignment or the subscription raises [TypeError]; a key that a
    dict has not is given an empty dict first. *)
Fixpoint set_keys (keys : list string) (value obj : json) : json + exn :=
  match keys with
  | [] => inl obj
  | [last] =>
      match obj with
      | JObj m => inl (JObj (<[last := value]> m))
      | _ => inr TypeError
      end
  | key :: rest =>
      match obj with
      | JObj m =>
          match set_keys rest value (default (JObj ∅) (m !! key)) with
          | inl child => inl (JObj (<[key := child]> m))
          | inr e => inr e
          end
      | _ => inr TypeError
      end
  end.

(** [Config.set] without [save]: the settings afterwards. When the call
    raises, nothing has been changed. *)
Definition config_set (path : string) (value settings : json) : json + exn :=
  set_keys (split_on "." path) value settings.

(** Two paths part: they agree up to a key in which they differ. *)
Definition part (ks ks' : list string) : Prop :=
  exists pre a b r r', a <> b /\ ks = pre ++ a :: r /\ ks' = pre ++ b :: r'.

(* ===================================================================== *)
(** * Properties *)
(* ===================================================================== *)

(** ** Text *)

Lemma strip_prefix_spec p : forall s r,
  Text.strip_prefix p s = Some r <-> s = p +:+ r.
Proof.
  induction p as [|a p IH]; intros s r; simpl.
  - split; [intros H; by injection H | intros ->; reflexivity].
  - destruct s as [|b s]; [split; discriminate|].
    destruct (Ascii.eqb_spec a b) as [-> | Hne].
    + rewrite IH. split; [intros ->; reflexivity | intros H; by injection H].
    + split; [discriminate | intros H; injection H; congruence].
Qed.

(** [Text.contains] is the test [p in s] of Python: [p] occurs in [s]. *)
Lemma contains_spec p s :
  Text.contains p s = true <-> exists a b, s = a +:+ p +:+ b.
Proof.
  split.
  - induction s as [|c s IH]; simpl; unfold Text.starts_with;
      destruct (Text.strip_prefix p _) as [r|] eqn:E; simpl; try discriminate.
    + intros _. apply strip_prefix_spec in E. by exists "", r.
    + intros _. apply strip_prefix_spec in E. by exists "", r.
    + intros H. destruct (IH H) as (a & b & ->). by exists (String c a), b.
  - intros (a & b & ->). induction a as [|c a IH]; simpl.
    + assert (Text.starts_with p (p +:+ b) = true) as E.
      { unfold Text.starts_with.
        by rewrite (proj2 (strip_prefix_spec p (p +:+ b) b) eq_refl). }
      destruct (p +:+ b); simpl in *; by rewrite E.
    + rewrite IH. apply orb_true_r.
Qed.

(** ** Validation *)




Lemma existsb_eqb_elem (s : string) (l : list string) :
  existsb (fun a => String.eqb s a) l = true <-> s ∈ l.
Proof.
  rewrite existsb_exists. split.
  - intros (a & Hin & He). apply String.eqb_eq in He. subst.
    by apply list_elem_of_In.
  - intros Hin. exists s. split; [by apply list_elem_of_In | apply String.eqb_refl].
Qed.




Lemma check_numeric_spec k d :
  ((snd (check_numeric k d) = None /\ ~ numeric_bad d k)
   \/ (raises_value_error (snd (check_numeric k d)) /\ numeric_bad d k))
  /\ forall k', k' <> k -> fst (check_numeric k d) !! k' = d !! k'.
Proof.
  unfold check_numeric, numeric_bad.
  destruct (d !! k) as [v|] eqn:E.
  2:{ split; [left; split; [reflexivity|] | auto].
      intros (v & Hv & _). discriminate. }
  destruct (is_none v) eqn:N.
  { destruct v; try discriminate.
    split; [left; split; [reflexivity|] | auto].
    intros (v & Hv & Hn & _). congruence. }
  assert (Hne : v <> PNone) by (intros ->; discriminate).
  destruct (py_int v) as [z|] eqn:P.
  - destruct (z <? 0) eqn:L; simpl.
    + split; [right | intros k' Hk'; by rewrite lookup_insert_ne].
      split; [eexists; reflexivity|].
      exists v. split; [reflexivity|]. split; [exact Hne|].
      intros (z' & Hz' & Hpos). apply Z.ltb_lt in L. congruence || (rewrite P in Hz'; injection Hz' as <-; lia).
    + split; [left | intros k' Hk'; by rewrite lookup_insert_ne].
      split; [reflexivity|].
      intros (v' & Hv' & _ & Hbad). injection Hv' as <-.
      apply Hbad. exists z. split; [exact P|]. apply Z.ltb_ge in L. exact L.
  - simpl. split; [right | auto].
    split; [eexists; reflexivity|].
    exists v. split; [reflexivity|]. split; [exact Hne|].
    intros (z' & Hz' & _). congruence.
Qed.


Lemma add_or_update_raised env d origin db :
  raised (add_or_update env d origin db) = snd (validate d).
Proof.
  unfold add_or_update. destruct (validate d) as [d' [e|]]; simpl; [reflexivity|].
  destruct (get_by_provider _ _ db) as [existing|].
  - destruct (_ && _); reflexivity.
  - destruct (insert _ _ db); reflexivity.
Qed.

Lemma add_or_update_error_db env d origin db :
  raised (add_or_update env d origin db) <> None ->
  db_out (add_or_update env d origin db) = db.
Proof.
  unfold add_or_update. destruct (validate d) as [d' [e|]]; simpl; [reflexivity|].
  destruct (get_by_provider _ _ db) as [existing|].
  - destruct (_ && _); simpl; congruence.
  - destruct (insert _ _ db); simpl; congruence.
Qed.


(** ** The expiry sweep *)

Lemma refresh_row_rows t row d :
  rows (refresh_row t row d) =
  map (fun r => if expired t row && (id r =? id row)
                then set_suppression 0 None 0 r else r) (rows d).
Proof.
  unfold refresh_row, expired.
  destruct (blacklisted_at row) as [start|]; simpl.
  2:{ symmetry. apply map_id. }
  destruct (_expiry_date start (procedure_code row)) as [expiry|]; simpl.
  2:{ symmetry. apply map_id. }
  destruct (expiry <? t); simpl; [reflexivity|].
  symmetry. apply map_id.
Qed.

Lemma refresh_row_seq t row d : seq (refresh_row t row d) = seq d.
Proof.
  unfold refresh_row.
  destruct (blacklisted_at row); [|reflexivity].
  destruct (_expiry_date _ _); [|reflexivity].
  destruct (_ <? _); reflexivity.
Qed.

(** The loop of the sweep resets the rows whose id is the id of a
    selected row that has expired. *)
Lemma sweep_loop_rows clock sel d :
  rows (fold_left (fun d row => refresh_row (clock (id row)) row d) sel d) =
  map (fun r => if existsb (fun s => expired (clock (id s)) s && (id r =? id s)) sel
                then set_suppression 0 None 0 r else r) (rows d).
Proof.
  revert d. induction sel as [|s sel IH]; intros d; simpl.
  - symmetry. apply map_id.
  - rewrite IH, refresh_row_rows, map_map. apply map_ext. intros r.
    destruct (expired (clock (id s)) s && (id r =? id s)) eqn:E; simpl.
    + destruct (existsb _ sel); reflexivity.
    + reflexivity.
Qed.

Lemma refresh_blacklist_rows clock db :
  unique_ids db ->
  rows (refresh_blacklist clock db) = map (sweep_row clock) (rows db).
Proof.
  intros Hu. unfold refresh_blacklist. rewrite sweep_loop_rows.
  apply map_ext_in. intros r Hr. unfold sweep_row.
  match goal with |- (if ?a then _ else _) = (if ?b then _ else _) =>
    assert (a = b) as ->; [|reflexivity] end.
  apply eq_true_iff_eq. rewrite existsb_exists, andb_true_iff, bool_decide_eq_true.
  split.
  - intros (s & Hs & He). apply andb_true_iff in He as [He Hid].
    apply Z.eqb_eq in Hid.
    apply list_elem_of_In, list_elem_of_filter in Hs as [Hf Hs].
    assert (s = r) as ->.
    { apply list_elem_of_In in Hs. clear -Hu Hs Hr Hid. unfold unique_ids in Hu.
      induction (rows db) as [|x l IHl]; [destruct Hr|].
      simpl in Hu. apply NoDup_cons in Hu as [Hx Hl].
      destruct Hr as [-> | Hr], Hs as [-> | Hs]; auto.
      - exfalso. apply Hx. rewrite Hid. apply list_elem_of_In, in_map, Hs.
      - exfalso. apply Hx. rewrite <- Hid. apply list_elem_of_In, in_map, Hr. }
    auto.
  - intros [Hf He]. exists r. split.
    + apply list_elem_of_In, list_elem_of_filter. split; [exact Hf|].
      by apply list_elem_of_In.
    + rewrite He. simpl. apply Z.eqb_refl.
Qed.

Lemma sweep_row_id clock r : id (sweep_row clock r) = id r.
Proof. unfold sweep_row. destruct (_ && _); reflexivity. Qed.

Lemma row_with_id_map (f : MediaItem -> MediaItem) l r :
  (forall x, id (f x) = id x) ->
  NoDup (map id l) -> In r l ->
  find (fun x => id x =? id r) (map f l) = Some (f r).
Proof.
  intros Hf. induction l as [|x l IH]; intros Hu Hr; [destruct Hr|].
  simpl in Hu. apply NoDup_cons in Hu as [Hx Hl]. simpl. rewrite Hf.
  destruct Hr as [-> | Hr].
  - by rewrite Z.eqb_refl.
  - destruct (id x =? id r) eqn:E; [|auto].
    apply Z.eqb_eq in E. exfalso. apply Hx. rewrite E.
    apply list_elem_of_In, in_map, Hr.
Qed.

Lemma sweep_row_at clock db r :
  unique_ids db -> In r (rows db) ->
  row_with_id (id r) (refresh_blacklist clock db) = Some (sweep_row clock r).
Proof.
  intros Hu Hr. unfold row_with_id. rewrite refresh_blacklist_rows by exact Hu.
  apply row_with_id_map; [apply sweep_row_id | exact Hu | exact Hr].
Qed.

Lemma expiry_is_duration start code :
  1 <= code <= 5 -> _expiry_date start code = Some (start + duration code).
Proof.
  intros H.
  assert (code = 1 \/ code = 2 \/ code = 3 \/ code = 4 \/ code = 5) as Hc by lia.
  destruct Hc as [-> | [-> | [-> | [-> | ->]]]]; unfold _expiry_date, duration, days;
    simpl; f_equal; lia.
Qed.

(** C4. For every blacklisted record of a catalogue (its rows have
    distinct ids, as the primary key has it), what a sweep leaves of the
    record is: with blacklisted_at set to [t] and a code in 1..5, the
    record reset to inactive when the clock read for it is past
    [t + duration(code)] and the record as it was otherwise, so that it
    is inactive exactly when now > blacklisted_at + duration(code); with
    code 2, the record as it was at a sweep six days after [t] and the
    record reset at a sweep eight days after [t]; with code 6, the record
    as it was whatever the clock reads. *)
Theorem sweep_expiry clock db r :
  unique_ids db -> In r (rows db) -> blacklist_flag r = 1 ->
  (forall t, blacklisted_at r = Some t -> 1 <= procedure_code r <= 5 ->
     exists r', row_with_id (id r) (refresh_blacklist clock db) = Some r'
       /\ (inactive r' <-> clock (id r) > t + duration (procedure_code r))
       /\ (clock (id r) > t + duration (procedure_code r) ->
             r' = set_suppression 0 None 0 r)
       /\ (~ clock (id r) > t + duration (procedure_code r) -> r' = r))
  /\ (forall t, blacklisted_at r = Some t -> procedure_code r = 2 ->
        (clock (id r) = t + days 6 ->
           row_with_id (id r) (refresh_blacklist clock db) = Some r)
        /\ (clock (id r) = t + days 8 ->
              exists r', row_with_id (id r) (refresh_blacklist clock db) = Some r'
                /\ inactive r'))
  /\ (procedure_code r = 6 ->
        row_with_id (id r) (refresh_blacklist clock db) = Some r).
Proof.
  intros Hu Hr Hf.
  assert (Hgen : forall t, blacklisted_at r = Some t -> 1 <= procedure_code r <= 5 ->
            sweep_row clock r =
            if t + duration (procedure_code r) <? clock (id r)
            then set_suppression 0 None 0 r else r).
  { intros t Ht Hc. unfold sweep_row, expired.
    rewrite Ht, (expiry_is_duration _ _ Hc), bool_decide_true by exact Hf.
    reflexivity. }
  rewrite (sweep_row_at clock db r Hu Hr).
  split; [|split].
  - intros t Ht Hc. eexists. split; [reflexivity|]. rewrite (Hgen t Ht Hc).
    destruct (t + duration (procedure_code r) <? clock (id r)) eqn:E.
    + apply Z.ltb_lt in E. split; [|split].
      * split; [lia|]. intros _. unfold inactive. simpl. auto.
      * reflexivity.
      * lia.
    + apply Z.ltb_ge in E. split; [|split].
      * split; [|lia]. intros [H0 _]. lia.
      * lia.
      * reflexivity.
  - intros t Ht Hc. assert (Hc' : 1 <= procedure_code r <= 5) by lia.
    rewrite (Hgen t Ht Hc'), Hc. unfold duration, days. split; intros ->.
    + replace (_ <? _) with false; [reflexivity|]. symmetry. apply Z.ltb_ge. lia.
    + replace (_ <? _) with true; [|symmetry; apply Z.ltb_lt; lia].
      eexists. split; [reflexivity|]. unfold inactive. simpl. auto.
  - intros Hc. f_equal. unfold sweep_row, expired.
    destruct (blacklisted_at r) as [start|]; [|by rewrite andb_false_r].
    rewrite Hc. simpl. by rewrite andb_false_r.
Qed.

(** ** The suppression invariant *)

Lemma invariant_reset r : suppression_invariant (set_suppression 0 None 0 r).
Proof. unfold suppression_invariant. simpl. tauto. Qed.

Lemma invariant_suppress t code r :
  code <> 0 -> suppression_invariant (set_suppression 1 (Some t) code r).
Proof.
  intros H. unfold suppression_invariant. simpl.
  split; split; intros; try lia; try discriminate.
Qed.

Lemma invariant_opened t m r :
  suppression_invariant r -> suppression_invariant (set_opened t m r).
Proof. unfold suppression_invariant. simpl. tauto. Qed.

Lemma invariant_update item_id f db :
  (forall r, suppression_invariant r -> suppression_invariant (f r)) ->
  Forall suppression_invariant (rows db) ->
  Forall suppression_invariant (rows (update_where_id item_id f db)).
Proof.
  intros Hf H. unfold update_where_id. simpl. apply Forall_map.
  eapply Forall_impl; [exact H|]. intros r Hr. simpl.
  destruct (id r =? item_id); auto.
Qed.

Lemma invariant_insert t n db db' :
  insert t n db = Some db' ->
  Forall suppression_invariant (rows db) ->
  Forall suppression_invariant (rows db').
Proof.
  unfold insert. intros H Hdb.
  destruct (n_title n), (n_type n), (n_source n); try discriminate.
  destruct (existsb _ _); [discriminate|]. injection H as <-. simpl.
  apply Forall_app. split; [exact Hdb|]. apply Forall_singleton.
  unfold suppression_invariant. simpl. tauto.
Qed.

Lemma invariant_add_or_update env d origin db :
  Forall suppression_invariant (rows db) ->
  Forall suppression_invariant (rows (db_out (add_or_update env d origin db))).
Proof.
  intros H. unfold add_or_update.
  destruct (validate d) as [d' [e|]]; simpl; [exact H|].
  destruct (get_by_provider _ _ db) as [existing|].
  - destruct (_ && _); simpl; [exact H|].
    apply invariant_update; [|exact H]. intros r. apply invariant_opened.
  - destruct (insert _ _ db) as [db'|] eqn:E; simpl; [|exact H].
    eapply invariant_insert; eassumption.
Qed.

Lemma invariant_refresh clock db :
  Forall suppression_invariant (rows db) ->
  Forall suppression_invariant (rows (refresh_blacklist clock db)).
Proof.
  intros H. unfold refresh_blacklist. rewrite sweep_loop_rows.
  apply Forall_map. eapply Forall_impl; [exact H|]. intros r Hr. simpl.
  destruct (existsb _ _); [apply invariant_reset | exact Hr].
Qed.

(** C6 as it is stated, with any code for [suppress], fails:
    suppressing the one record of a catalogue with code 0 leaves it
    blacklisted with code 0. *)
Lemma suppress_with_code_0_breaks_invariant :
  ~ (forall db, reachable (fun _ => True) db ->
       Forall suppression_invariant (rows db)).
Proof.
  intros H.
  assert (R : reachable (fun _ => True) (set_blacklist 1 true 0 2000 one_record)).
  { apply reach_suppress; [|exact I]. apply reach_ingest, reach_empty. }
  apply H in R. vm_compute in R. apply Forall_cons in R as [[[R _] _] _].
  specialize (R eq_refl). discriminate.
Qed.

(** C6 (amended). In every state that the core operations reach from an
    empty catalogue (ingestion, suppression with a code other than 0,
    lifting, sweeping) every record satisfies
    [suppression_code == 0 <=> blacklisted == false <=> blacklisted_at == null]. *)
Theorem suppression_invariant_reachable db :
  reachable (fun code => code <> 0) db ->
  Forall suppression_invariant (rows db).
Proof.
  induction 1 as [|env d origin db _ IH|item_id code t db _ IH Hc
                  |item_id code t db _ IH|clock db _ IH].
  - constructor.
  - by apply invariant_add_or_update.
  - unfold set_blacklist. apply invariant_update; [|exact IH].
    intros r _. by apply invariant_suppress.
  - unfold set_blacklist. apply invariant_update; [|exact IH].
    intros r _. apply invariant_reset.
  - by apply invariant_refresh.
Qed.

(** C6 at a catalogue whose record is suppressed for a week. *)
Lemma suppression_invariant_reachable_witness :
  reachable (fun code => code <> 0) (set_blacklist 1 true 2 2000 one_record)
  /\ Forall suppression_invariant (rows (set_blacklist 1 true 2 2000 one_record)).
Proof.
  assert (R : reachable (fun code => code <> 0) (set_blacklist 1 true 2 2000 one_record)).
  { apply reach_suppress; [|discriminate]. apply reach_ingest, reach_empty. }
  split; [exact R | exact (suppression_invariant_reachable _ R)].
Defined.

(** ** Ingestion: the update path *)

Lemma limit_title_keeps d k :
  k <> "title" -> fst (limit_title d) !! k = d !! k.
Proof.
  intros Hk. unfold limit_title.
  destruct (d !! "title") as [v|]; [|reflexivity].
  destruct (truthy v); [|reflexivity].
  destruct v; try reflexivity.
  destruct (_ <? _)%nat; simpl; [by rewrite lookup_insert_ne | reflexivity].
Qed.

Lemma check_numeric_keeps f d k :
  k <> f -> fst (check_numeric f d) !! k = d !! k.
Proof. intros Hk. by apply check_numeric_spec. Qed.

Lemma validate_keeps d k :
  k ∉ rewritten_by_validation -> fst (validate d) !! k = d !! k.
Proof.
  intros Hk.
  assert (k <> "title" /\ k <> "length_seconds" /\ k <> "season" /\ k <> "episode")
    as (H1 & H2 & H3 & H4).
  { repeat split; intros ->; apply Hk; in_list. }
  unfold validate.
  destruct (check_required _ _); [reflexivity|].
  destruct (check_type _); [reflexivity|].
  destruct (check_source _); [reflexivity|].
  pose proof (limit_title_keeps d k H1) as E1.
  destruct (limit_title d) as [d1 [e1|]]; simpl in *; [exact E1|].
  pose proof (check_numeric_keeps "length_seconds" d1 k H2) as E2.
  destruct (check_numeric "length_seconds" d1) as [d2 [e2|]]; simpl in *; [congruence|].
  pose proof (check_numeric_keeps "season" d2 k H3) as E3.
  destruct (check_numeric "season" d2) as [d3 [e3|]]; simpl in *; [congruence|].
  pose proof (check_numeric_keeps "episode" d3 k H4) as E4.
  congruence.
Qed.

Lemma validate_keeps_get d k :
  k ∉ rewritten_by_validation -> get (fst (validate d)) k = get d k.
Proof. intros Hk. unfold get. by rewrite validate_keeps. Qed.

Ltac not_rewritten :=
  let H := fresh in
  intros H; unfold rewritten_by_validation in H;
  repeat (apply elem_of_cons in H as [H | H]; [discriminate|]);
  by apply elem_of_nil in H.



Lemma same_fingerprint_opened p s t m r :
  same_fingerprint p s (set_opened t m r) = same_fingerprint p s r.
Proof. reflexivity. Qed.



Lemma update_where_id_frame i t m l :
  Forall2 (fun r r' => same_but_opened r r' /\ (id r <> i -> r' = r))
    l (map (fun r => if id r =? i then set_opened t m r else r) l).
Proof.
  induction l as [|x l IH]; simpl; constructor; [|exact IH].
  destruct (id x =? i) eqn:E.
  - apply Z.eqb_eq in E. split; [|congruence].
    unfold same_but_opened. simpl. repeat split.
  - split; [|reflexivity]. unfold same_but_opened. repeat split.
Qed.

(** What [add_or_update] does with valid data when the lookup finds a
    record. *)
Lemma add_or_update_existing env d origin db existing :
  snd (validate d) = None ->
  get_by_provider (get d "provider_id") (get d "source") db = Some existing ->
  add_or_update env d origin db =
  {| raised := None; data_out := fst (validate d);
     db_out := if ignored existing origin then db
               else update_where_id (id existing) (reopen (now env) d) db |}.
Proof.
  intros Hv He. unfold add_or_update.
  destruct (validate d) as [d' e] eqn:V. simpl in Hv. subst e.
  change d' with (fst (d', @None exn)). rewrite <- V.
  rewrite !validate_keeps_get by not_rewritten. rewrite He.
  unfold ignored, reopen. destruct (_ && _); reflexivity.
Qed.

(** C10. When ingestion of valid data finds a record with the incoming
    fingerprint and the signal is not ignored (the record is not
    blacklisted, or the origin is not external), nothing is raised, no
    row is added or removed, every row keeps every column but
    last_opened_at and open_method, and the rows with another id are
    untouched; the result depends on the incoming data through its
    fingerprint and its open_method only, so that the title,
    description, thumbnail_url, season, episode, artist, album, channel,
    length_seconds and local-file fields of a second identification are
    discarded. *)
Theorem update_path_frame env d origin db existing :
  snd (validate d) = None ->
  get_by_provider (get d "provider_id") (get d "source") db = Some existing ->
  ignored existing origin = false ->
  let o := add_or_update env d origin db in
  raised o = None
  /\ seq (db_out o) = seq db
  /\ Forall2 (fun r r' => same_but_opened r r' /\ (id r <> id existing -> r' = r))
       (rows db) (rows (db_out o))
  /\ (forall env2 d2,
        snd (validate d2) = None ->
        get d2 "provider_id" = get d "provider_id" ->
        get d2 "source" = get d "source" ->
        get d2 "open_method" = get d "open_method" ->
        now env2 = now env ->
        db_out (add_or_update env2 d2 origin db) = db_out o).
Proof.
  intros Hv He Hi o. subst o.
  rewrite (add_or_update_existing env d origin db existing Hv He), Hi. simpl.
  split; [reflexivity|]. split; [reflexivity|]. split.
  - apply update_where_id_frame.
  - intros env2 d2 Hv2 Hp Hs Hm Hn.
    rewrite (add_or_update_existing env2 d2 origin db existing Hv2)
      by (rewrite Hp, Hs; exact He).
    rewrite Hi. simpl. unfold reopen. by rewrite Hm, Hn.
Qed.

(** ** Ingestion: the insert path and idempotence *)








Lemma find_none_existsb {A} (P : A -> bool) l :
  find P l = None -> existsb P l = false.
Proof.
  induction l as [|x l IH]; simpl; [reflexivity|].
  destruct (P x); [discriminate | exact IH].
Qed.





(** ** What validation leaves in the numeric fields *)

Lemma check_numeric_typed f d :
  snd (check_numeric f d) = None ->
  get (fst (check_numeric f d)) f = PNone
  \/ exists z, 0 <= z /\ get (fst (check_numeric f d)) f = PInt z.
Proof.
  unfold check_numeric, get. destruct (d !! f) as [v|] eqn:E; simpl.
  2:{ intros _. left. by rewrite E. }
  destruct (is_none v) eqn:N; simpl.
  { intros _. left. rewrite E. by destruct v. }
  destruct (py_int v) as [z|]; simpl; [|discriminate].
  destruct (z <? 0) eqn:L; simpl; [discriminate|].
  intros _. right. exists z. apply Z.ltb_ge in L.
  by rewrite lookup_insert_eq.
Qed.

(** After validation the numeric fields hold nothing or a non-negative
    integer: the invariant of the data model, and what the INSERT binds
    to its INTEGER columns. *)
Lemma validate_numeric_typed d k :
  snd (validate d) = None ->
  k ∈ ["length_seconds"; "season"; "episode"] ->
  get (fst (validate d)) k = PNone
  \/ exists z, 0 <= z /\ get (fst (validate d)) k = PInt z.
Proof.
  unfold validate.
  destruct (check_required _ _); [discriminate|].
  destruct (check_type _); [discriminate|].
  destruct (check_source _); [discriminate|].
  destruct (limit_title d) as [d1 [e1|]]; simpl; [discriminate|].
  pose proof (check_numeric_typed "length_seconds" d1) as T2.
  destruct (check_numeric "length_seconds" d1) as [d2 [e2|]] eqn:E2; simpl in *;
    [discriminate|].
  pose proof (check_numeric_typed "season" d2) as T3.
  pose proof (check_numeric_keeps "season" d2) as K3.
  destruct (check_numeric "season" d2) as [d3 [e3|]] eqn:E3; simpl in *;
    [discriminate|].
  pose proof (check_numeric_typed "episode" d3) as T4.
  pose proof (check_numeric_keeps "episode" d3) as K4.
  destruct (check_numeric "episode" d3) as [d4 [e4|]] eqn:E4; simpl in *;
    [discriminate|].
  intros _ Hk. unfold get in *. each_of Hk.
  - rewrite K4, K3 by discriminate. auto.
  - rewrite K4 by discriminate. auto.
  - auto.
Qed.

(** ** The ingestion loop *)

Lemma drain_spec env q : forall i st,
  let batch := take (50 - i) q in
  tick_db (drain env i q st) = apply_batch env i batch (tick_db st)
  /\ tick_queue (drain env i q st) = drop (50 - i) q
  /\ effects (drain env i q st)
     = effects st ++ map LogError (batch_errors env i batch (tick_db st))
  /\ has_updates (drain env i q st)
     = has_updates st || batch_applied env i batch (tick_db st).
Proof.
  induction q as [|event rest IH]; intros i st; simpl.
  - rewrite take_nil, drop_nil, app_nil_r, orb_false_r. simpl. auto.
  - destruct (i <? 50)%nat eqn:E.
    + apply Nat.ltb_lt in E.
      replace (50 - i)%nat with (S (50 - S i)) by lia. simpl.
      destruct (IH (S i)
        match raised (process_event (env i) event (tick_db st)) with
        | None => {| tick_db := db_out (process_event (env i) event (tick_db st));
                     tick_queue := rest; has_updates := true; effects := effects st |}
        | Some e => {| tick_db := db_out (process_event (env i) event (tick_db st));
                       tick_queue := rest; has_updates := has_updates st;
                       effects := effects st ++ [LogError e] |}
        end) as (H1 & H2 & H3 & H4).
      rewrite H1, H2, H3, H4.
      destruct (raised (process_event (env i) event (tick_db st))) as [e|]; simpl.
      * rewrite <- app_assoc. auto.
      * rewrite orb_true_r. auto.
    + apply Nat.ltb_ge in E. replace (50 - i)%nat with O by lia. simpl.
      rewrite app_nil_r, orb_false_r. auto.
Qed.

Lemma process_queue_spec env q db :
  let batch := take 50 q in
  tick_db (process_queue env q db) = apply_batch env 0 batch db
  /\ tick_queue (process_queue env q db) = drop 50 q
  /\ effects (process_queue env q db)
     = map LogError (batch_errors env 0 batch db)
       ++ (if batch_applied env 0 batch db then [RefreshAllViews] else []).
Proof.
  unfold process_queue.
  destruct (drain_spec env q 0
    {| tick_db := db; tick_queue := q; has_updates := false; effects := [] |})
    as (H1 & H2 & H3 & H4).
  simpl in *. rewrite H4.
  destruct (batch_applied env 0 (take 50 q) db); simpl.
  - rewrite H1, H2, H3. auto.
  - rewrite H1, H2, H3, app_nil_r. auto.
Qed.

Lemma apply_batch_app env batch1 batch2 : forall i db,
  apply_batch env i (batch1 ++ batch2) db
  = apply_batch env (i + length batch1) batch2 (apply_batch env i batch1 db).
Proof.
  induction batch1 as [|e b IH]; intros i db; simpl.
  - by rewrite Nat.add_0_r.
  - rewrite IH. f_equal. lia.
Qed.

Lemma filter_log_errors (errs : list exn) (tail : list effect) :
  Forall (fun e => e = RefreshAllViews) tail ->
  List.filter (fun e => negb (bool_decide (e = RefreshAllViews)))
    (map LogError errs ++ tail) = map LogError errs.
Proof.
  intros Ht. rewrite List.filter_app.
  assert (List.filter (fun e => negb (bool_decide (e = RefreshAllViews))) tail = []) as ->.
  { induction Ht as [|x l -> _ IH]; simpl; [reflexivity | exact IH]. }
  rewrite app_nil_r. induction errs as [|e errs IH]; simpl; [reflexivity|].
  by rewrite IH.
Qed.

Lemma refreshes_count (errs : list exn) (tail : list effect) :
  length (List.filter (fun e => bool_decide (e = RefreshAllViews))
            (map LogError errs ++ tail))
  = length (List.filter (fun e => bool_decide (e = RefreshAllViews)) tail).
Proof.
  rewrite List.filter_app, length_app.
  assert (List.filter (fun e => bool_decide (e = RefreshAllViews)) (map LogError errs) = [])
    as ->; [|reflexivity].
  induction errs as [|e errs IH]; simpl; [reflexivity | exact IH].
Qed.

(** C7. A tick takes the first 50 items of the queue (all of them when
    there are fewer), in the order of the queue, and leaves the others in
    the queue as they were: no item comes back. The database after the
    tick is the one that results from applying every item of the batch in
    turn, each to what the items before it have left, whatever any of
    them raises; what the items raise is logged, one entry for each, in
    order. The tick is a total function: it ends for every queue. *)
Theorem batch_isolation env q db :
  let t := process_queue env q db in
  let batch := take 50 q in
  (length batch <= 50)%nat
  /\ q = batch ++ tick_queue t
  /\ tick_db t = apply_batch env 0 batch db
  /\ (forall i event, batch !! i = Some event ->
        apply_batch env 0 (take (S i) batch) db
        = db_out (process_event (env i) event (apply_batch env 0 (take i batch) db)))
  /\ List.filter (fun e => negb (bool_decide (e = RefreshAllViews))) (effects t)
     = map LogError (batch_errors env 0 batch db).
Proof.
  intros t batch. subst t batch.
  destruct (process_queue_spec env q db) as (H1 & H2 & H3).
  split; [rewrite length_take; lia|].
  split; [by rewrite H2, take_drop|].
  split; [exact H1|]. split.
  - intros i event Hi.
    rewrite (take_S_r _ _ _ Hi), apply_batch_app. simpl.
    rewrite length_take. apply lookup_lt_Some in Hi.
    replace (i `min` length (take 50 q))%nat with i by lia. reflexivity.
  - rewrite H3. apply filter_log_errors.
    destruct (batch_applied _ _ _ _); repeat constructor.
Qed.

Lemma changed_item_applied env batch : forall i0 db,
  (exists i event, batch !! i = Some event
     /\ db_out (process_event (env (i0 + i)%nat) event
                  (apply_batch env i0 (take i batch) db))
        <> apply_batch env i0 (take i batch) db) ->
  batch_applied env i0 batch db = true.
Proof.
  induction batch as [|e rest IH]; intros i0 db (i & event & Hi & Hc).
  - discriminate.
  - simpl. destruct i as [|i]; simpl in *.
    + injection Hi as ->. rewrite Nat.add_0_r in Hc.
      destruct (raised (process_event (env i0) event db)) eqn:R; [|reflexivity].
      exfalso. apply Hc. unfold process_event in *.
      apply add_or_update_error_db. congruence.
    + rewrite (IH (S i0)); [apply orb_true_r|].
      exists i, event. split; [exact Hi|].
      replace (S i0 + i)%nat with (i0 + S i)%nat by lia. exact Hc.
Qed.

(** C5. In a tick the refresh of the views is called at most once, and
    never between the items; when an item of the drained batch changes
    the database it is called exactly once, as the last thing the tick
    does. The fifty signals of fifty new files, drained in one tick into
    an empty catalogue, give fifty records and one refresh. *)
Theorem batch_refresh env q db :
  let t := process_queue env q db in
  let batch := take 50 q in
  (refreshes t <= 1)%nat
  /\ (exists errs, effects t = map LogError errs
        \/ effects t = map LogError errs ++ [RefreshAllViews])
  /\ ((exists i, item_changes env batch db i) ->
        refreshes t = 1%nat /\ last (effects t) = Some RefreshAllViews)
  /\ (let t50 := process_queue (fun _ => offline 5000) fifty_signals empty_db in
      length fifty_signals = 50%nat /\ NoDup fifty_signals
      /\ length (rows (tick_db t50)) = 50%nat /\ tick_queue t50 = []
      /\ refreshes t50 = 1%nat).
Proof.
  intros t batch. subst t batch.
  destruct (process_queue_spec env q db) as (_ & _ & H3).
  unfold refreshes. rewrite H3, refreshes_count.
  split; [destruct (batch_applied _ _ _ _); simpl; lia|].
  split.
  { eexists. destruct (batch_applied _ _ _ _); [right | left; rewrite app_nil_r];
      reflexivity. }
  split.
  - intros (i & event & Hi & Hc).
    rewrite (changed_item_applied env (take 50 q) 0 db).
    + split; [reflexivity | apply last_snoc].
    + exists i, event. split; [exact Hi | exact Hc].
  - assert (E : forall t50, t50 = process_queue (fun _ => offline 5000) fifty_signals empty_db ->
       length fifty_signals = 50%nat /\ bool_decide (NoDup fifty_signals) = true
       /\ length (rows (tick_db t50)) = 50%nat /\ tick_queue t50 = []
       /\ length (List.filter (fun e => bool_decide (e = RefreshAllViews)) (effects t50)) = 1%nat).
    { intros t50 ->. vm_compute. auto. }
    destruct (E _ eq_refl) as (E1 & E2 & E3 & E4 & E5).
    apply bool_decide_eq_true in E2. auto.
Qed.

(** ** The window poller *)

Lemma dispatches_iff fs w t :
  dispatches fs w t = true <-> t <> "" /\ t <> last_title w.
Proof.
  unfold dispatches, poll.
  destruct (String.eqb_spec t "") as [E1|E1],
           (String.eqb_spec t (last_title w)) as [E2|E2];
    simpl; rewrite bool_decide_eq_true.
  1-3: split; [intros H; by destruct H | tauto].
  split; [tauto|]. intros _ H. apply (f_equal length) in H. simpl in H. lia.
Qed.

Lemma last_title_poll fs w t :
  last_title (poll fs w t) = keep_nonempty (last_title w) t.
Proof.
  unfold poll, keep_nonempty.
  destruct (String.eqb_spec t ""), (String.eqb_spec t (last_title w)); simpl; congruence.
Qed.

Lemma last_title_run fs titles : forall w,
  last_title (run fs titles w) = fold_left keep_nonempty titles (last_title w).
Proof.
  unfold run. induction titles as [|t titles IH]; intros w; simpl; [reflexivity|].
  by rewrite IH, last_title_poll.
Qed.

Lemma last_title_observed fs titles q :
  last_title (run fs titles (new_watcher q)) = last_nonempty titles.
Proof. by rewrite last_title_run. Qed.

Lemma last_nonempty_snoc titles t :
  last_nonempty (titles ++ [t]) = keep_nonempty (last_nonempty titles) t.
Proof. unfold last_nonempty. by rewrite fold_left_app. Qed.

(** C9 as it is stated fails: a title that comes back after an empty
    observation differs from the title observed just before it and
    is not dispatched. *)
Lemma title_back_after_empty_not_dispatched :
  ~ (forall fs titles i t,
       titles !! i = Some t ->
       dispatches fs (run fs (take i titles) (new_watcher [])) t = true
       <-> t <> "" /\ preceding titles i <> Some t).
Proof.
  intros H.
  destruct (H no_files ["A"; ""; "A"] 2%nat "A" eq_refl) as [_ H2].
  assert (E : dispatches no_files
                (run no_files (take 2 ["A"; ""; "A"]) (new_watcher [])) "A" = false)
    by (vm_compute; reflexivity).
  rewrite H2 in E; [discriminate|].
  split; simpl; discriminate.
Qed.

(** C9 (amended). For every sequence of observed foreground titles, the
    poller dispatches at an observation exactly when the observed title
    is not empty and differs from the last non-empty title observed
    before it (empty observations are passed over and do not count as a
    change); of two consecutive identical titles the second is not
    dispatched, and a title that is replaced by another non-empty title
    and comes back is dispatched again. *)
Theorem poller_change_detection fs titles q i t :
  titles !! i = Some t ->
  (dispatches fs (run fs (take i titles) (new_watcher q)) t = true
   <-> t <> "" /\ t <> last_nonempty (take i titles))
  /\ (titles !! S i = Some t ->
        dispatches fs (run fs (take (S i) titles) (new_watcher q)) t = false)
  /\ (forall u, t <> "" -> u <> "" -> u <> t ->
        titles !! S i = Some u -> titles !! S (S i) = Some t ->
        dispatches fs (run fs (take (S (S i)) titles) (new_watcher q)) t = true).
Proof.
  intros Hi. split; [|split].
  - by rewrite dispatches_iff, last_title_observed.
  - intros _. apply not_true_is_false. rewrite dispatches_iff, last_title_observed.
    rewrite (take_S_r _ _ _ Hi), last_nonempty_snoc. unfold keep_nonempty.
    destruct (String.eqb_spec t ""); tauto.
  - intros u Ht Hu Hne Hi1 Hi2.
    rewrite dispatches_iff, last_title_observed.
    rewrite (take_S_r _ _ _ Hi1), last_nonempty_snoc. unfold keep_nonempty.
    destruct (String.eqb_spec u ""); [contradiction|]. split; congruence.
Qed.

(** ** Signals of the producers and suppressed records *)

(** A signal whose origin is the text [external] leaves a blacklisted
    record as it is. *)
Lemma external_signal_ignored env d db existing :
  snd (validate d) = None ->
  get_by_provider (get d "provider_id") (get d "source") db = Some existing ->
  blacklist_flag existing = 1 ->
  db_out (add_or_update env d (PStr "external") db) = db.
Proof.
  intros Hv He Hf. rewrite (add_or_update_existing env d _ db existing Hv He).
  unfold ignored. rewrite Hf. reflexivity.
Qed.

(** What the dispatcher puts in the queue carries the origin that the
    producer names. *)
Lemma dispatch_origin fs s origin q :
  dispatch fs s origin q = q
  \/ exists info, dispatch fs s origin q = q ++ [info]
       /\ get_default info "origin" (PStr "external") = PStr origin.
Proof.
  unfold dispatch. destruct (identify fs s) as [info|]; [|by left].
  destruct (bool_decide _); [by left|]. right. eexists. split; [reflexivity|].
  unfold get_default. by rewrite lookup_insert_eq.
Qed.

(** A signal of the window watcher is not ignored, whatever the record. *)
Lemma window_watcher_signal_not_ignored existing :
  ignored existing (PStr "window_watcher") = false.
Proof. unfold ignored. apply andb_false_r. Qed.

(** A signal of the file indexer is not ignored, whatever the record. *)
Lemma file_indexer_signal_not_ignored existing :
  ignored existing (PStr "file_indexer") = false.
Proof. unfold ignored. apply andb_false_r. Qed.

(** C2 (the program at the failing input). The record of the catalogue
    is blacklisted and was last opened at time 1000; the window watcher
    sees its address in the title of the foreground window, and the tick
    that takes the signal from the queue, at time 3000, sets
    last_opened_at to 3000 and refreshes the views. *)
Theorem suppressed_record_reopened_by_window_watcher :
  let t := process_queue (fun _ => offline 3000) watched_queue one_suppressed_record in
  fmap blacklist_flag (row_with_id 1 one_suppressed_record) = Some 1
  /\ fmap last_opened_at (row_with_id 1 one_suppressed_record) = Some (Some 1000)
  /\ fmap (fun e => get e "origin") (head watched_queue) = Some (PStr "window_watcher")
  /\ fmap blacklist_flag (row_with_id 1 (tick_db t)) = Some 1
  /\ fmap last_opened_at (row_with_id 1 (tick_db t)) = Some (Some 3000)
  /\ effects t = [RefreshAllViews].
Proof. vm_compute. repeat split. Qed.

(** ** The registry and the structural patterns *)

Lemma identify_in_declines fs q rest t :
  declines fs q t -> identify_in fs (q :: rest) t = identify_in fs rest t.
Proof.
  intros [H | H]; simpl; rewrite H; [reflexivity|].
  destruct (matches fs q t); reflexivity.
Qed.

Lemma identify_in_accepts fs p rest t r :
  matches fs p t = true -> extract_info fs p t = Some r -> r <> ∅ ->
  identify_in fs (p :: rest) t = Some r.
Proof.
  intros Hm He Hr. simpl. rewrite Hm, He.
  by rewrite bool_decide_false.
Qed.

Lemma mk_dict_not_empty k v l : mk_dict ((k, v) :: l) <> ∅.
Proof.
  unfold mk_dict. simpl. intros H. apply (f_equal (fun m => m !! k)) in H.
  rewrite lookup_insert_eq, lookup_empty in H. discriminate.
Qed.

(** C8 as it is stated fails: the address of the directory page of
    Twitch matches the pattern of Twitch, which captures [directory],
    and the registry answers with a title match. *)
Lemma twitch_directory_has_no_real_id :
  ~ (forall fs pat t c,
       captured pat t = Some c ->
       exists r, identify fs t = Some r
         /\ r !! "has_real_id" = Some (PBool true)
         /\ r !! "provider_id" = Some (PStr c)).
Proof.
  intros H.
  destruct (H no_files TwitchChannel "https://www.twitch.tv/directory" "directory"
              ltac:(vm_compute; reflexivity)) as (r & Hr & Hid & _).
  assert (E : (identify no_files "https://www.twitch.tv/directory"
                 ≫= fun r => r !! "has_real_id") = Some (PBool false))
    by (vm_compute; reflexivity).
  rewrite Hr in E. simpl in E. congruence.
Qed.

(** C8 (amended). For every text that matches the structural pattern of
    a service, when no provider that the registry asks before the
    provider of that service has an answer for the text, when (for
    Twitch) the captured name is not that of a system page, and when
    (for the second pattern of Amazon) the first pattern of Amazon does
    not match, the result of the registry has has_real_id true, the
    captured identifier as its provider_id and the service as its
    source. Netflix is asked first: for its pattern nothing is assumed. *)
Theorem structural_match_identified fs pat t c :
  captured pat t = Some c ->
  Forall (fun q => declines fs q t) (asked_before (owner pat) providers) ->
  (pat = TwitchChannel -> Text.lower c ∉ twitch_system_pages) ->
  (pat = AmazonDetail -> captured PrimeDetail t = None) ->
  exists r, identify fs t = Some r
    /\ r !! "has_real_id" = Some (PBool true)
    /\ r !! "provider_id" = Some (PStr c)
    /\ r !! "source" = Some (PStr (source_of (owner pat))).
Proof.
  intros Hc Hd Htw Ham. unfold identify, providers.
  destruct pat; cbn [captured owner] in Hc, Hd;
    match type of Hd with
    | Forall _ ?l => let l' := eval vm_compute in l in change l with l' in Hd
    end;
    repeat match type of Hd with
           | Forall _ (_ :: _) =>
               let Hq := fresh "Hq" in
               apply Forall_cons in Hd as [Hq Hd];
               rewrite (identify_in_declines _ _ _ _ Hq)
           end; clear Hd.
  - (* Netflix *)
    eexists. split; [apply identify_in_accepts|].
    + unfold matches. by rewrite Hc.
    + unfold extract_info. rewrite Hc. reflexivity.
    + apply mk_dict_not_empty.
    + by vm_compute.
  - (* Disney+ *)
    eexists. split; [apply identify_in_accepts|].
    + unfold matches. by rewrite Hc.
    + unfold extract_info. rewrite Hc. reflexivity.
    + apply mk_dict_not_empty.
    + by vm_compute.
  - (* Prime Video, first pattern *)
    eexists. split; [apply identify_in_accepts|].
    + unfold matches. by rewrite Hc.
    + unfold extract_info. rewrite Hc. reflexivity.
    + apply mk_dict_not_empty.
    + by vm_compute.
  - (* Prime Video, second pattern *)
    specialize (Ham eq_refl). cbn [captured] in Ham.
    eexists. split; [apply identify_in_accepts|].
    + unfold matches. rewrite Hc. cbn. by rewrite orb_true_r.
    + unfold extract_info. rewrite Ham, Hc. reflexivity.
    + apply mk_dict_not_empty.
    + by vm_compute.
  - (* Apple TV+ *)
    eexists. split; [apply identify_in_accepts|].
    + unfold matches. by rewrite Hc.
    + unfold extract_info. rewrite Hc. reflexivity.
    + apply mk_dict_not_empty.
    + by vm_compute.
  - (* YouTube *)
    eexists. split; [apply identify_in_accepts|].
    + unfold matches. by rewrite Hc.
    + unfold extract_info. rewrite Hc. reflexivity.
    + apply mk_dict_not_empty.
    + by vm_compute.
  - (* Twitch *)
    specialize (Htw eq_refl).
    assert (existsb (String.eqb (Text.lower c)) ["directory"; "settings"; "videos"] = false)
      as Hsys.
    { apply not_true_is_false. intros H. apply Htw.
      apply existsb_exists in H as (x & Hin & Hx). apply String.eqb_eq in Hx.
      subst x. by apply list_elem_of_In. }
    eexists. split; [apply identify_in_accepts|].
    + unfold matches. by rewrite Hc.
    + unfold extract_info. rewrite Hc, Hsys. reflexivity.
    + apply mk_dict_not_empty.
    + by vm_compute.
  - (* Spotify *)
    destruct (Re.spotify t) as [[kind cid]|] eqn:Hs; [|discriminate].
    injection Hc as <-.
    eexists. split; [apply identify_in_accepts|].
    + unfold matches. rewrite Hs. cbn. by rewrite orb_true_r.
    + unfold extract_info. rewrite Hs. reflexivity.
    + apply mk_dict_not_empty.
    + by vm_compute.
Qed.

(** ** The tests of the repository, on the embedding *)

Example test_clean_window_title :
  clean_window_title "Netflix - Google Chrome" [" - Google Chrome"] = Some "Netflix"
  /\ clean_window_title "Stranger Things - Netflix" [" - Netflix"]
     = Some "Stranger Things"
  /\ clean_window_title "MediaBrain - Dashboard" [] = None
  /\ clean_window_title "YouTube und 5 weitere Seiten - Chrome" [" - Chrome"]
     = Some "YouTube".
Proof. vm_compute. auto. Qed.

Example test_netflix :
  matches no_files NetflixProvider "https://www.netflix.com/watch/12345" = true
  /\ matches no_files NetflixProvider "Stranger Things - Netflix" = true
  /\ (extract_info no_files NetflixProvider "https://www.netflix.com/watch/80057281"
        ≫= fun r => r !! "provider_id") = Some (PStr "80057281")
  /\ (extract_info no_files NetflixProvider "Stranger Things - Netflix"
        ≫= fun r => r !! "title") = Some (PStr "Stranger Things")
  /\ (extract_info no_files NetflixProvider "Stranger Things - Netflix"
        ≫= fun r => r !! "has_real_id") = Some (PBool false)
  /\ (extract_info no_files NetflixProvider "Netflix - Google Chrome"
        ≫= fun r => r !! "title") = Some (PStr ("Netflix " +:+ overview)).
Proof. vm_compute. repeat split. Qed.

Example test_youtube :
  let url := "https://www.youtube.com/watch?v=dQw4w9WgXcQ" in
  (identify no_files url ≫= fun r => r !! "source") = Some (PStr "youtube")
  /\ (identify no_files url ≫= fun r => r !! "type") = Some (PStr "clip")
  /\ (identify no_files url ≫= fun r => r !! "provider_id") = Some (PStr "dQw4w9WgXcQ")
  /\ (identify no_files url ≫= fun r => r !! "has_real_id") = Some (PBool true)
  /\ (identify no_files url ≫= fun r => r !! "thumbnail_url")
     = Some (PStr "https://img.youtube.com/vi/dQw4w9WgXcQ/0.jpg")
  /\ (extract_info no_files YouTubeProvider
        "Rick Astley - Never Gonna Give You Up - YouTube" ≫= fun r => r !! "title")
     = Some (PStr "Rick Astley - Never Gonna Give You Up").
Proof. vm_compute. repeat split. Qed.

Example test_other_services :
  (identify no_files "https://open.spotify.com/track/4uLU6hMCjMI75M1A2tKUQC"
     ≫= fun r => r !! "provider_id") = Some (PStr "4uLU6hMCjMI75M1A2tKUQC")
  /\ matches no_files DisneyPlusProvider "https://www.disneyplus.com/video/abc-123-def"
     = true
  /\ matches no_files AmazonPrimeProvider "https://www.primevideo.com/detail/B08WTXR123"
     = true
  /\ matches no_files AmazonPrimeProvider
       "https://www.amazon.de/gp/video/detail/B08WTXR123" = true
  /\ matches no_files AppleTVProvider "https://tv.apple.com/us/movie/test/umc12345"
     = true
  /\ (extract_info no_files TwitchProvider "https://www.twitch.tv/ninja"
        ≫= fun r => r !! "channel") = Some (PStr "ninja")
  /\ (extract_info no_files TwitchProvider "https://www.twitch.tv/directory"
        ≫= fun r => r !! "provider_id") <> Some (PStr "directory").
Proof. vm_compute. repeat split. discriminate. Qed.

Example test_add_or_update :
  raised (add_or_update (offline 1000) negative_length (PStr "external") empty_db)
  = Some (ValueError (Negative "length_seconds"))
  /\ raised (add_or_update (offline 1000)
               (mk_dict [("title", PStr "Incomplete Data"); ("type", PStr "movie")])
               (PStr "external") empty_db)
     = Some (ValueError (RequiredMissing "source"))
  /\ raised (add_or_update (offline 1000)
               (mk_dict [("title", PStr "Invalid Type"); ("type", PStr "invalid_type");
                         ("source", PStr "netflix"); ("provider_id", PStr "99999")])
               (PStr "external") empty_db)
     = Some (ValueError InvalidType)
  /\ fmap title (get_by_provider (PStr "80057281") (PStr "netflix") one_record)
     = Some "Netflix Inhalt 80057281".
Proof. vm_compute. repeat split. Qed.

Example test_set_blacklist :
  let on := set_blacklist 1 true 1 2000 one_record in
  let off := set_blacklist 1 false 6 3000 (set_blacklist 1 true 2 2000 one_record) in
  fmap (fun r => (blacklist_flag r, procedure_code r, blacklisted_at r))
    (row_with_id 1 on) = Some (1, 1, Some 2000)
  /\ fmap (fun r => (blacklist_flag r, procedure_code r, blacklisted_at r))
       (row_with_id 1 off) = Some (0, 0, None).
Proof. vm_compute. repeat split. Qed.

(** ** The theorems at sample inputs *)

Example one_record_rows : one_record = {| rows := [one_row]; seq := 1 |}.
Proof. vm_compute. reflexivity. Qed.

Example week_db_reached : set_blacklist 1 true 2 2000 one_record = week_db.
Proof. vm_compute. reflexivity. Qed.


(** C4 at a record suppressed for a week, swept eight days later. *)
Lemma sweep_expiry_witness :
  unique_ids week_db /\ In week_row (rows week_db) /\ blacklist_flag week_row = 1
  /\ exists r', row_with_id 1 (refresh_blacklist (fun _ => 2000 + days 8) week_db)
                = Some r'
       /\ inactive r'.
Proof.
  assert (H1 : unique_ids week_db).
  { unfold unique_ids. simpl. constructor; [by intros H%elem_of_nil | constructor]. }
  assert (H2 : In week_row (rows week_db)) by (simpl; auto).
  assert (H3 : blacklist_flag week_row = 1) by reflexivity.
  split; [exact H1|]. split; [exact H2|]. split; [exact H3|].
  destruct (sweep_expiry (fun _ => 2000 + days 8) week_db week_row H1 H2 H3)
    as (_ & Hweek & _).
  destruct (Hweek 2000 eq_refl eq_refl) as [_ Hlate].
  exact (Hlate eq_refl).
Defined.

(** C10 at a second sight of the one record of a catalogue. *)
Lemma update_path_frame_witness :
  snd (validate stranger_things) = None
  /\ get_by_provider (get stranger_things "provider_id")
       (get stranger_things "source") one_record = Some one_row
  /\ ignored one_row (PStr "window_watcher") = false
  /\ let o := add_or_update (offline 3000) stranger_things (PStr "window_watcher")
                one_record in
     raised o = None /\ seq (db_out o) = seq one_record
     /\ Forall2 (fun r r' => same_but_opened r r' /\ (id r <> id one_row -> r' = r))
          (rows one_record) (rows (db_out o)).
Proof.
  assert (H1 : snd (validate stranger_things) = None) by (vm_compute; reflexivity).
  assert (H2 : get_by_provider (get stranger_things "provider_id")
                 (get stranger_things "source") one_record = Some one_row)
    by (vm_compute; reflexivity).
  assert (H3 : ignored one_row (PStr "window_watcher") = false) by reflexivity.
  split; [exact H1|]. split; [exact H2|]. split; [exact H3|].
  destruct (update_path_frame (offline 3000) stranger_things (PStr "window_watcher")
              one_record one_row H1 H2 H3) as (R1 & R2 & R3 & _).
  exact (conj R1 (conj R2 R3)).
Defined.


(** C9 at the observations A, B, A. *)
Lemma poller_change_detection_witness :
  ["A"; "B"; "A"] !! 0%nat = Some "A"
  /\ (dispatches no_files (run no_files (take 0 ["A"; "B"; "A"]) (new_watcher [])) "A"
      = true <-> "A" <> "" /\ "A" <> last_nonempty (take 0 ["A"; "B"; "A"]))
  /\ dispatches no_files (run no_files (take 2 ["A"; "B"; "A"]) (new_watcher [])) "A"
     = true.
Proof.
  assert (H : ["A"; "B"; "A"] !! 0%nat = Some "A") by reflexivity.
  split; [exact H|].
  destruct (poller_change_detection no_files ["A"; "B"; "A"] [] 0 "A" H)
    as (R1 & _ & R3).
  split; [exact R1|].
  apply (R3 "B"); [discriminate | discriminate | discriminate | reflexivity | reflexivity].
Defined.

(** C8 at the address of a YouTube video. *)
Lemma structural_match_identified_witness :
  let t := "https://www.youtube.com/watch?v=dQw4w9WgXcQ" in
  captured YouTubeWatch t = Some "dQw4w9WgXcQ"
  /\ Forall (fun q => declines no_files q t)
       (asked_before (owner YouTubeWatch) providers)
  /\ exists r, identify no_files t = Some r
       /\ r !! "has_real_id" = Some (PBool true)
       /\ r !! "provider_id" = Some (PStr "dQw4w9WgXcQ")
       /\ r !! "source" = Some (PStr (source_of (owner YouTubeWatch))).
Proof.
  intros t.
  assert (H1 : captured YouTubeWatch t = Some "dQw4w9WgXcQ") by (vm_compute; reflexivity).
  assert (H2 : Forall (fun q => declines no_files q t)
                 (asked_before (owner YouTubeWatch) providers)).
  { repeat (apply Forall_cons; split; [left; vm_compute; reflexivity|]).
    constructor. }
  split; [exact H1|]. split; [exact H2|].
  apply (structural_match_identified no_files YouTubeWatch t "dQw4w9WgXcQ" H1 H2);
    discriminate.
Defined.

(* ===================================================================== *)
(** * Further properties of the code *)
(* ===================================================================== *)

(** ** Validation: what it leaves in the data *)

Lemma length_take_le n : forall s, (String.length (Text.take n s) <= n)%nat.
Proof.
  induction n as [|n IH]; intros [|c s]; simpl; try lia.
  specialize (IH s). lia.
Qed.

Lemma length_take_exact n : forall s,
  (n <= String.length s)%nat -> String.length (Text.take n s) = n.
Proof.
  induction n as [|n IH]; intros [|c s]; simpl; try lia.
  intros H. rewrite IH; lia.
Qed.

Lemma length_append s1 s2 :
  String.length (s1 +:+ s2) = (String.length s1 + String.length s2)%nat.
Proof. induction s1 as [|c s1 IH]; simpl; [reflexivity | by rewrite IH]. Qed.

Lemma validate_after_title d :
  snd (validate d) = None ->
  fst (validate d) !! "title" = fst (limit_title d) !! "title".
Proof.
  unfold validate.
  destruct (check_required _ _); [discriminate|].
  destruct (check_type _); [discriminate|].
  destruct (check_source _); [discriminate|].
  destruct (limit_title d) as [d1 [e1|]]; simpl; [discriminate|].
  pose proof (check_numeric_keeps "length_seconds" d1 "title" ltac:(discriminate)) as K2.
  destruct (check_numeric "length_seconds" d1) as [d2 [e2|]]; simpl in *; [discriminate|].
  pose proof (check_numeric_keeps "season" d2 "title" ltac:(discriminate)) as K3.
  destruct (check_numeric "season" d2) as [d3 [e3|]]; simpl in *; [discriminate|].
  pose proof (check_numeric_keeps "episode" d3 "title" ltac:(discriminate)) as K4.
  destruct (check_numeric "episode" d3) as [d4 [e4|]]; simpl in *; [discriminate|].
  intros _. congruence.
Qed.

(** X1. When validation passes, a title of at most 500 characters is
    kept as it is, and a longer title is replaced by its first 497
    characters followed by three dots, which makes 500 characters. *)
Theorem validated_title_is_bounded d s :
  snd (validate d) = None ->
  d !! "title" = Some (PStr s) ->
  let s' := if (500 <? String.length s)%nat then Text.take 497 s +:+ "..." else s in
  fst (validate d) !! "title" = Some (PStr s')
  /\ (String.length s' <= 500)%nat
  /\ ((500 < String.length s)%nat -> String.length s' = 500%nat).
Proof.
  intros Hv Ht s'. subst s'. rewrite (validate_after_title d Hv).
  assert (E : (500 < String.length s)%nat ->
              String.length (Text.take 497 s +:+ "...") = 500%nat).
  { intros L. rewrite length_append, length_take_exact by lia. reflexivity. }
  unfold limit_title. rewrite Ht.
  remember (Text.take 497 s +:+ "...") as cut eqn:Hcut. clear Hcut.
  cbn [truthy].
  destruct (String.eqb_spec s "") as [-> | Hne]; cbn [negb fst snd].
  { rewrite Ht. split; [reflexivity|]. simpl. split; lia. }
  destruct (500 <? String.length s)%nat eqn:L; cbn [fst snd].
  - apply Nat.ltb_lt in L. rewrite lookup_insert_eq, (E L).
    split; [reflexivity|]. split; [lia | reflexivity].
  - apply Nat.ltb_ge in L. rewrite Ht. split; [reflexivity|]. split; lia.
Qed.

Lemma check_required_ext d d' :
  (forall k, k ∈ required_fields -> d' !! k = d !! k) ->
  check_required required_fields d' = check_required required_fields d.
Proof.
  intros H. unfold required_fields, check_required.
  rewrite !H by in_list. reflexivity.
Qed.

Lemma check_numeric_settled f d :
  (d !! f = None \/ d !! f = Some PNone \/ exists z, 0 <= z /\ d !! f = Some (PInt z)) ->
  check_numeric f d = (d, None).
Proof.
  unfold check_numeric. intros [-> | [-> | (z & Hz & E)]]; try reflexivity.
  rewrite E. simpl. apply Z.ltb_ge in Hz. rewrite Hz.
  by rewrite insert_id.
Qed.

Lemma check_numeric_result f d :
  snd (check_numeric f d) = None ->
  fst (check_numeric f d) !! f = None
  \/ fst (check_numeric f d) !! f = Some PNone
  \/ exists z, 0 <= z /\ fst (check_numeric f d) !! f = Some (PInt z).
Proof.
  unfold check_numeric. destruct (d !! f) as [v|] eqn:E; simpl; [|auto].
  destruct (is_none v) eqn:N; simpl.
  { intros _. right; left. rewrite E. by destruct v. }
  destruct (py_int v) as [z|]; simpl; [|discriminate].
  destruct (z <? 0) eqn:L; simpl; [discriminate|].
  intros _. right; right. exists z. apply Z.ltb_ge in L.
  by rewrite lookup_insert_eq.
Qed.

Lemma limit_title_settled d :
  snd (limit_title d) = None -> limit_title (fst (limit_title d)) = (fst (limit_title d), None).
Proof.
  unfold limit_title at 1 3 4. destruct (d !! "title") as [v|] eqn:E; cbn [fst snd].
  2:{ intros _. unfold limit_title. by rewrite E. }
  destruct (truthy v) eqn:T; cbn [fst snd].
  2:{ intros _. unfold limit_title. by rewrite E, T. }
  destruct v as [| | |s]; cbn [fst snd]; try discriminate.
  destruct (500 <? String.length s)%nat eqn:L; cbn [fst snd]; intros _.
  - apply Nat.ltb_lt in L.
    assert (String.length (Text.take 497 s +:+ "...") = 500%nat) as El.
    { rewrite length_append, length_take_exact by lia. reflexivity. }
    unfold limit_title.
    remember (Text.take 497 s +:+ "...") as cut eqn:Hcut. clear Hcut.
    rewrite lookup_insert_eq. cbn [truthy].
    destruct (negb (String.eqb cut "")); [|reflexivity].
    rewrite El. reflexivity.
  - unfold limit_title. rewrite E, T, L. reflexivity.
Qed.

Lemma limit_title_ext d d' :
  d' !! "title" = d !! "title" ->
  limit_title d = (d, None) -> limit_title d' = (d', None).
Proof.
  unfold limit_title. intros Hd. rewrite Hd.
  destruct (d !! "title") as [v|] eqn:E; [|reflexivity].
  destruct (truthy v); [|reflexivity].
  destruct v as [| | |s]; try reflexivity; try discriminate.
  destruct (500 <? String.length s)%nat; [|reflexivity].
  remember (Text.take 497 s +:+ "...") as cut eqn:Hcut. clear Hcut.
  intros H. injection H as H.
  apply (f_equal (fun m => m !! "title")) in H.
  rewrite lookup_insert_eq, E in H. injection H as H.
  rewrite H. f_equal. apply insert_id. by rewrite Hd.
Qed.

(** X2. Validation settles the data: when it passes, validating its
    result again passes and changes nothing more. *)
Theorem validate_settles d :
  snd (validate d) = None ->
  validate (fst (validate d)) = (fst (validate d), None).
Proof.
  intros Hv.
  assert (K : forall k, k ∉ rewritten_by_validation ->
                fst (validate d) !! k = d !! k) by (intros; by apply validate_keeps).
  revert K Hv. unfold validate at 1 2 3 4 5.
  destruct (check_required required_fields d) as [e|] eqn:R; [discriminate|].
  destruct (check_type d) as [e|] eqn:Ty; [discriminate|].
  destruct (check_source d) as [e|] eqn:So; [discriminate|].
  pose proof (limit_title_settled d) as T1.
  pose proof (limit_title_keeps d) as K1.
  destruct (limit_title d) as [d1 [e1|]] eqn:E1; cbn [fst snd and_then] in *; [discriminate|].
  specialize (T1 eq_refl).
  pose proof (check_numeric_result "length_seconds" d1) as R2.
  pose proof (check_numeric_keeps "length_seconds" d1) as K2.
  destruct (check_numeric "length_seconds" d1) as [d2 [e2|]] eqn:E2; cbn [fst snd and_then] in *;
    [discriminate|].
  specialize (R2 eq_refl).
  pose proof (check_numeric_result "season" d2) as R3.
  pose proof (check_numeric_keeps "season" d2) as K3.
  destruct (check_numeric "season" d2) as [d3 [e3|]] eqn:E3; cbn [fst snd and_then] in *;
    [discriminate|].
  specialize (R3 eq_refl).
  pose proof (check_numeric_result "episode" d3) as R4.
  pose proof (check_numeric_keeps "episode" d3) as K4.
  destruct (check_numeric "episode" d3) as [d4 [e4|]] eqn:E4; cbn [fst snd and_then] in *;
    [discriminate|].
  specialize (R4 eq_refl).
  intros K _. unfold validate.
  rewrite (check_required_ext d d4), R
    by (intros k Hk; apply K; intros H; unfold required_fields in Hk;
        unfold rewritten_by_validation in H; each_of Hk;
        repeat (apply elem_of_cons in H as [H | H]; [discriminate|]);
        by apply elem_of_nil in H).
  assert (Gt : get d4 "type" = get d "type").
  { unfold get. rewrite K; [reflexivity | not_rewritten]. }
  assert (Gs : get d4 "source" = get d "source").
  { unfold get. rewrite K; [reflexivity | not_rewritten]. }
  unfold check_type in *. rewrite Gt. destruct (existsb _ allowed_types); [|discriminate].
  unfold check_source in *. rewrite Gs.
  destruct (existsb _ forbidden_in_source); [discriminate|].
  (* the title of the result is the settled title *)
  assert (Ht : limit_title d4 = (d4, None)).
  { apply (limit_title_ext d1); [|exact T1].
    rewrite K4, K3, K2 by discriminate. reflexivity. }
  rewrite Ht. cbn [and_then].
  rewrite (check_numeric_settled "length_seconds" d4)
    by (rewrite K4, K3 by discriminate; exact R2).
  cbn [and_then]. rewrite (check_numeric_settled "season" d4)
    by (rewrite K4 by discriminate; exact R3).
  cbn [and_then]. by apply check_numeric_settled.
Qed.

(** ** The catalogue: keys and round trips *)

Lemma same_fingerprint_true p s r :
  same_fingerprint (Some p) s r = true <-> fingerprint r = Some (p, s).
Proof.
  unfold same_fingerprint, fingerprint. destruct (provider_id r) as [q|]; simpl.
  - rewrite andb_true_iff, !String.eqb_eq. split.
    + intros [-> ->]. reflexivity.
    + intros H. injection H as -> ->. auto.
  - split; discriminate.
Qed.

Lemma update_where_id_ids i f db :
  (forall r, id (f r) = id r) ->
  map id (rows (update_where_id i f db)) = map id (rows db).
Proof.
  intros Hf. unfold update_where_id. simpl. rewrite map_map.
  apply map_ext. intros r. destruct (id r =? i); [apply Hf | reflexivity].
Qed.

Lemma fingerprints_map (g : MediaItem -> MediaItem) l :
  (forall r, fingerprint (g r) = fingerprint r) ->
  omap fingerprint (map g l) = omap fingerprint l.
Proof.
  intros Hg. induction l as [|r l IH]; simpl; [reflexivity|].
  rewrite Hg. destruct (fingerprint r); [f_equal|]; exact IH.
Qed.

Lemma update_where_id_fingerprints i f db :
  (forall r, fingerprint (f r) = fingerprint r) ->
  fingerprints (update_where_id i f db) = fingerprints db.
Proof.
  intros Hf. unfold fingerprints, update_where_id. cbn [rows].
  apply fingerprints_map. intros r.
  destruct (id r =? i); [apply Hf | reflexivity].
Qed.

Lemma well_formed_update i f db :
  (forall r, id (f r) = id r) ->
  (forall r, fingerprint (f r) = fingerprint r) ->
  well_formed db -> well_formed (update_where_id i f db).
Proof.
  intros Hi Hf (H1 & H2 & H3 & H4). unfold well_formed.
  rewrite update_where_id_ids, update_where_id_fingerprints by assumption.
  split; [exact H1|]. split; [exact H2|]. split; [exact H3|].
  unfold update_where_id. simpl. apply Forall_map.
  eapply Forall_impl; [exact H4|]. intros r Hr. simpl.
  destruct (id r =? i); [by rewrite Hi | exact Hr].
Qed.

Lemma next_rowid_above db :
  seq db < next_rowid db /\ Forall (fun r => id r < next_rowid db) (rows db).
Proof.
  unfold next_rowid. induction (rows db) as [|r l [IH1 IH2]]; simpl.
  - split; [lia | constructor].
  - split; [lia|]. constructor; [lia|].
    eapply Forall_impl; [exact IH2|]. simpl. intros; lia.
Qed.

Lemma fingerprints_app l1 l2 :
  omap fingerprint (l1 ++ l2) = omap fingerprint l1 ++ omap fingerprint l2.
Proof.
  induction l1 as [|r l1 IH]; simpl; [reflexivity|].
  destruct (fingerprint r); simpl; [f_equal|]; exact IH.
Qed.

Lemma existsb_same_fingerprint_false p s l :
  existsb (same_fingerprint (Some p) s) l = false -> (p, s) ∉ omap fingerprint l.
Proof.
  intros H Hin. apply list_elem_of_omap in Hin as (r & Hr & Hf).
  apply same_fingerprint_true in Hf.
  assert (existsb (same_fingerprint (Some p) s) l = true); [|congruence].
  apply existsb_exists. exists r. split; [by apply list_elem_of_In | exact Hf].
Qed.

Lemma well_formed_insert t n db db' :
  insert t n db = Some db' -> well_formed db -> well_formed db'.
Proof.
  unfold insert. intros H (H1 & H2 & H3 & H4).
  destruct (n_title n) as [ti|]; [|discriminate].
  destruct (n_type n) as [ty|]; [|discriminate].
  destruct (n_source n) as [so|]; [|discriminate].
  destruct (existsb _ _) eqn:E; [discriminate|]. injection H as <-.
  destruct (next_rowid_above db) as [N1 N2].
  unfold well_formed, fingerprints. cbn [rows seq].
  rewrite map_app, fingerprints_app. cbn [map omap].
  split; [|split; [|split]].
  - apply NoDup_app. split; [exact H1|]. split; [|apply NoDup_singleton].
    intros x Hx Hx'. apply list_elem_of_singleton in Hx'. subst x.
    apply list_elem_of_In, in_map_iff in Hx as (r & Hr & Hin).
    rewrite Forall_forall in N2. apply list_elem_of_In in Hin.
    specialize (N2 r Hin). simpl in Hr. lia.
  - unfold fingerprint at 2. cbn [provider_id source].
    destruct (n_provider_id n) as [p|]; simpl.
    + apply NoDup_app. split; [exact H2|]. split; [|apply NoDup_singleton].
      intros x Hx Hx'. apply list_elem_of_singleton in Hx'. subst x.
      by apply existsb_same_fingerprint_false in E.
    + by rewrite app_nil_r.
  - lia.
  - apply Forall_app. split.
    + eapply Forall_impl; [exact H4|]. simpl. intros; lia.
    + apply Forall_singleton. simpl. lia.
Qed.

Lemma well_formed_add_or_update env d origin db :
  well_formed db -> well_formed (db_out (add_or_update env d origin db)).
Proof.
  intros H. unfold add_or_update.
  destruct (validate d) as [d' [e|]]; simpl; [exact H|].
  destruct (get_by_provider _ _ db) as [existing|].
  - destruct (_ && _); simpl; [exact H|].
    apply well_formed_update; [reflexivity | reflexivity | exact H].
  - destruct (insert _ _ db) as [db'|] eqn:E; simpl; [|exact H].
    eapply well_formed_insert; eassumption.
Qed.

Lemma sweep_loop_seq clock sel : forall d,
  seq (fold_left (fun d row => refresh_row (clock (id row)) row d) sel d) = seq d.
Proof.
  induction sel as [|s sel IH]; intros d; simpl; [reflexivity|].
  by rewrite IH, refresh_row_seq.
Qed.

Lemma well_formed_refresh clock db :
  well_formed db -> well_formed (refresh_blacklist clock db).
Proof.
  intros (H1 & H2 & H3 & H4).
  assert (R : rows (refresh_blacklist clock db)
              = map (fun r => if existsb (fun s => expired (clock (id s)) s
                                                   && (id r =? id s))
                                   (filter (fun r => blacklist_flag r = 1) (rows db))
                              then set_suppression 0 None 0 r else r) (rows db))
    by apply sweep_loop_rows.
  assert (S : seq (refresh_blacklist clock db) = seq db) by apply sweep_loop_seq.
  unfold well_formed, fingerprints. rewrite R, S. clear R S.
  set (g := fun r => if existsb _ _ then _ else r).
  assert (Gi : forall r, id (g r) = id r).
  { intros r. unfold g. destruct (existsb _ _); reflexivity. }
  assert (Gf : forall r, fingerprint (g r) = fingerprint r).
  { intros r. unfold g. destruct (existsb _ _); reflexivity. }
  split; [|split; [|split]].
  - rewrite map_map. erewrite map_ext; [exact H1 | exact Gi].
  - by rewrite fingerprints_map.
  - exact H3.
  - apply Forall_map. eapply Forall_impl; [exact H4|]. intros r Hr. simpl.
    by rewrite Gi.
Qed.

(** X4. In every state that ingestion, suppression (with any code),
    lifting and sweeping reach from an empty catalogue, no two records
    have the same id, no two records have the same fingerprint
    (provider_id, source), and every id lies between 1 and the counter of
    AUTOINCREMENT. *)
Theorem reachable_well_formed db :
  reachable (fun _ => True) db -> well_formed db.
Proof.
  induction 1 as [|env d origin db _ IH|item_id code t db _ IH _
                  |item_id code t db _ IH|clock db _ IH].
  - unfold well_formed, fingerprints. simpl.
    repeat split; try constructor. lia.
  - by apply well_formed_add_or_update.
  - unfold set_blacklist. by apply well_formed_update.
  - unfold set_blacklist. by apply well_formed_update.
  - by apply well_formed_refresh.
Qed.

Lemma reachable_well_formed_witness :
  reachable (fun _ => True) one_suppressed_record
  /\ well_formed one_suppressed_record.
Proof.
  assert (R : reachable (fun _ => True) one_suppressed_record).
  { apply reach_suppress; [|exact I]. apply reach_ingest, reach_empty. }
  split; [exact R | exact (reachable_well_formed _ R)].
Defined.

Lemma find_unique {A} (P : A -> bool) (l : list A) (r : A) :
  In r l -> P r = true ->
  (forall x y, In x l -> In y l -> P x = true -> P y = true -> x = y) ->
  find P l = Some r.
Proof.
  intros Hin Hr Hu. destruct (find P l) as [x|] eqn:E.
  - apply find_some in E as [Hx Px]. f_equal. by apply Hu.
  - exfalso. apply (find_none _ _ E) in Hin. congruence.
Qed.

Lemma NoDup_omap_unique l r1 r2 fp :
  NoDup (omap fingerprint l) ->
  In r1 l -> In r2 l -> fingerprint r1 = Some fp -> fingerprint r2 = Some fp ->
  NoDup (map id l) -> r1 = r2.
Proof.
  induction l as [|x l IH]; simpl; intros Hn H1 H2 F1 F2 Hi; [destruct H1|].
  apply NoDup_cons in Hi as [Hx Hi].
  assert (Hin : forall r, In r l -> fingerprint r = Some fp -> fp ∈ omap fingerprint l).
  { intros r Hr Hf. apply list_elem_of_omap. exists r.
    split; [by apply list_elem_of_In | exact Hf]. }
  destruct H1 as [-> | H1], H2 as [-> | H2]; try reflexivity.
  - rewrite F1 in Hn. apply NoDup_cons in Hn as [Hn _]. exfalso. eauto.
  - rewrite F2 in Hn. apply NoDup_cons in Hn as [Hn _]. exfalso. eauto.
  - destruct (fingerprint x); [apply NoDup_cons in Hn as [_ Hn]|]; eauto.
Qed.

(** X5. In a well-formed catalogue the lookup by fingerprint does not
    depend on the order of the rows: it returns a record exactly when
    that record is in the table and has the fingerprint, and it returns
    nothing exactly when no record has it. *)
Theorem lookup_by_fingerprint db p s r :
  well_formed db ->
  (get_by_provider (PStr p) (PStr s) db = Some r
   <-> In r (rows db) /\ fingerprint r = Some (p, s))
  /\ (get_by_provider (PStr p) (PStr s) db = None
      <-> (p, s) ∉ fingerprints db).
Proof.
  intros (H1 & H2 & _). unfold get_by_provider. simpl. split.
  - split.
    + intros H. apply find_some in H as [Hin Hf].
      by apply same_fingerprint_true in Hf.
    + intros [Hin Hf]. apply find_unique; [exact Hin | by apply same_fingerprint_true |].
      intros x y Hx Hy Px Py. apply same_fingerprint_true in Px, Py.
      eapply NoDup_omap_unique; eauto.
  - split.
    + intros H. apply existsb_same_fingerprint_false. by apply find_none_existsb.
    + intros H. destruct (find _ _) as [x|] eqn:E; [|reflexivity].
      exfalso. apply H. apply find_some in E as [Hin Hf].
      apply same_fingerprint_true in Hf. apply list_elem_of_omap.
      exists x. split; [by apply list_elem_of_In | exact Hf].
Qed.

(** ** The catalogue: what a first sight stores *)




(** ** Suppression: frames and compositions *)

Lemma same_but_suppression_refl r : same_but_suppression r r.
Proof. unfold same_but_suppression. repeat split. Qed.

Lemma same_but_suppression_set flag at_ code r :
  same_but_suppression r (set_suppression flag at_ code r).
Proof. unfold same_but_suppression. repeat split. Qed.

Lemma database_eq db db' : rows db = rows db' -> seq db = seq db' -> db = db'.
Proof. destruct db, db'. simpl. by intros -> ->. Qed.

Lemma sweep_row_twice clock r : sweep_row clock (sweep_row clock r) = sweep_row clock r.
Proof.
  unfold sweep_row at 2 3.
  destruct (bool_decide (blacklist_flag r = 1) && expired (clock (id r)) r) eqn:E;
    [reflexivity|].
  unfold sweep_row. by rewrite E.
Qed.

(** X7. A sweep changes nothing but the three suppression columns, and
    leaves every record that is not blacklisted as it is; sweeping again
    with the same readings of the clock changes nothing more. *)
Theorem sweep_frame_and_idempotence clock db :
  unique_ids db ->
  Forall2 (fun r r' => same_but_suppression r r' /\ (blacklist_flag r <> 1 -> r' = r))
    (rows db) (rows (refresh_blacklist clock db))
  /\ seq (refresh_blacklist clock db) = seq db
  /\ refresh_blacklist clock (refresh_blacklist clock db) = refresh_blacklist clock db.
Proof.
  intros Hu.
  assert (Hu' : unique_ids (refresh_blacklist clock db)).
  { unfold unique_ids. rewrite refresh_blacklist_rows by exact Hu.
    rewrite map_map. erewrite map_ext; [exact Hu | apply sweep_row_id]. }
  assert (S : forall d, seq (refresh_blacklist clock d) = seq d)
    by (intros d; apply sweep_loop_seq).
  split; [|split; [apply S|]].
  - rewrite refresh_blacklist_rows by exact Hu.
    induction (rows db) as [|r l IH]; simpl; constructor; [|exact IH].
    unfold sweep_row. destruct (bool_decide_reflect (blacklist_flag r = 1)) as [Hf|Hf];
      simpl.
    + destruct (expired _ r); split; try tauto;
        [apply same_but_suppression_set | apply same_but_suppression_refl].
    + split; [apply same_but_suppression_refl | reflexivity].
  - apply database_eq; [|by rewrite !S].
    rewrite (refresh_blacklist_rows clock _ Hu'), (refresh_blacklist_rows clock _ Hu).
    rewrite map_map. apply map_ext. intros r. apply sweep_row_twice.
Qed.

Lemma update_where_id_missing i f db :
  Forall (fun r => id r <> i) (rows db) -> update_where_id i f db = db.
Proof.
  intros H. apply database_eq; [|reflexivity]. unfold update_where_id. simpl.
  induction H as [|r l Hr _ IH]; simpl; [reflexivity|].
  apply Z.eqb_neq in Hr. by rewrite Hr, IH.
Qed.

(** X8. [set_blacklist] raises nothing: for an id that no record has it
    leaves the catalogue as it is. Otherwise it changes nothing but the
    three suppression columns of the records with that id: switched on,
    they become flag 1, the time of the call and the given code, whatever
    they were (a second suppression restarts the clock); switched off,
    they become flag 0, no time and code 0. *)
Theorem set_blacklist_frame item_id enabled code t db :
  (Forall (fun r => id r <> item_id) (rows db) ->
     set_blacklist item_id enabled code t db = db)
  /\ seq (set_blacklist item_id enabled code t db) = seq db
  /\ Forall2 (fun r r' =>
       same_but_suppression r r'
       /\ (id r <> item_id -> r' = r)
       /\ (id r = item_id ->
             (blacklist_flag r', blacklisted_at r', procedure_code r')
             = if enabled then (1, Some t, code) else (0, None, 0)))
       (rows db) (rows (set_blacklist item_id enabled code t db)).
Proof.
  split; [|split].
  - intros H. unfold set_blacklist. destruct enabled; by apply update_where_id_missing.
  - unfold set_blacklist. destruct enabled; reflexivity.
  - unfold set_blacklist, update_where_id. destruct enabled; cbn [rows];
      (induction (rows db) as [|r l IH]; simpl; constructor; [|exact IH]);
      (destruct (Z.eqb_spec (id r) item_id) as [E|E];
       [split; [apply same_but_suppression_set|]; split; [contradiction|reflexivity]
       |split; [apply same_but_suppression_refl|]; split; [reflexivity|contradiction]]).
Qed.

(** X9. Lifting undoes a suppression: when the records with the id are
    inactive (flag 0, no time, code 0), suppressing them with any code
    and lifting the suppression gives back the catalogue as it was. *)
Theorem lift_undoes_suppress item_id code t code' t' db :
  Forall (fun r => id r = item_id -> inactive r) (rows db) ->
  set_blacklist item_id false code' t' (set_blacklist item_id true code t db) = db.
Proof.
  intros H. apply database_eq; [|reflexivity].
  unfold set_blacklist, update_where_id. cbn [rows]. rewrite map_map.
  induction H as [|r l Hr _ IH]; simpl; [reflexivity|]. rewrite IH. f_equal.
  destruct (Z.eqb_spec (id r) item_id) as [E|E]; simpl.
  - rewrite (proj2 (Z.eqb_eq _ _) E).
    destruct (Hr E) as (H1 & H2 & H3). destruct r; simpl in *. by subst.
  - by rewrite (proj2 (Z.eqb_neq _ _) E).
Qed.

(** ** The registry: what its results look like *)

Lemma search_some {A} (f : string -> option A) s a :
  Re.search f s = Some a -> exists s', f s' = Some a.
Proof.
  induction s as [|c s IH]; simpl.
  - destruct (f "") eqn:E; [intros H; injection H as ->; eauto | discriminate].
  - destruct (f (String c s)) eqn:E; [intros H; injection H as ->; eauto | exact IH].
Qed.

Lemma lit_some {A} p (k : string -> option A) s a :
  Re.lit p k s = Some a -> exists rest, k rest = Some a.
Proof. unfold Re.lit. destruct (Text.strip_prefix p s); [eauto | discriminate]. Qed.

Lemma plus_some {A} cls (k : string -> string -> option A) s a :
  Re.plus cls k s = Some a -> exists run rest, run <> "" /\ k run rest = Some a.
Proof.
  unfold Re.plus. destruct (Text.span cls s) as [[|c run] rest]; [discriminate|].
  intros H. exists (String c run), rest. split; [discriminate | exact H].
Qed.

Lemma alt_some {A} alts (k : string -> string -> option A) s a :
  Re.alt alts k s = Some a -> exists x rest, k x rest = Some a.
Proof.
  induction alts as [|x alts IH]; simpl; [discriminate|].
  destruct (Re.lit x (k x) s) eqn:E; [|exact IH].
  intros H. injection H as ->. apply lit_some in E as [rest E]. eauto.
Qed.

Lemma group_end_some cls s a : Re.group_end cls s = Some a -> a <> "".
Proof.
  unfold Re.group_end. intros H. apply plus_some in H as (run & rest & Hr & H).
  injection H as <-. exact Hr.
Qed.

(** What a structural pattern captures is not empty. *)
Lemma captured_not_empty pat t c : captured pat t = Some c -> c <> "".
Proof.
  destruct pat; simpl; intros H.
  - apply search_some in H as [s H]. apply lit_some in H as [r H].
    by apply group_end_some in H.
  - apply search_some in H as [s H]. apply lit_some in H as [r H].
    by apply group_end_some in H.
  - apply search_some in H as [s H]. apply lit_some in H as [r H].
    by apply group_end_some in H.
  - apply search_some in H as [s H]. apply lit_some in H as [r H].
    apply plus_some in H as (run & r' & _ & H). apply lit_some in H as [r'' H].
    by apply group_end_some in H.
  - apply search_some in H as [s H]. apply lit_some in H as [r H].
    apply plus_some in H as (run & r1 & _ & H). apply lit_some in H as [r2 H].
    apply alt_some in H as (x & r3 & H). apply lit_some in H as [r4 H].
    apply plus_some in H as (run' & r5 & _ & H). apply lit_some in H as [r6 H].
    by apply group_end_some in H.
  - apply search_some in H as [s H]. apply lit_some in H as [r H].
    by apply group_end_some in H.
  - apply search_some in H as [s H]. apply lit_some in H as [r H].
    by apply group_end_some in H.
  - destruct (Re.spotify t) as [[kind cid]|] eqn:E; [|discriminate].
    simpl in H. injection H as <-.
    apply search_some in E as [s E]. apply lit_some in E as [r E].
    apply alt_some in E as (x & r1 & E). apply lit_some in E as [r2 E].
    apply plus_some in E as (run & r3 & Hr & E). by injection E as _ <-.
Qed.

Lemma lstrip_head s :
  Text.lstrip s = "" \/ exists c r, Text.lstrip s = String c r /\ Text.is_space c = false.
Proof.
  induction s as [|c s IH]; simpl; [by left|].
  destruct (Text.is_space c) eqn:E; [exact IH | right; eauto].
Qed.

Lemma rstrip_rstrip s : Text.rstrip (Text.rstrip s) = Text.rstrip s.
Proof.
  induction s as [|c s IH]; simpl; [reflexivity|].
  destruct (Text.rstrip s) as [|c' r'] eqn:E.
  - destruct (Text.is_space c) eqn:Sp; simpl; [reflexivity | by rewrite Sp].
  - simpl in *. by rewrite IH.
Qed.

Lemma rstrip_head c r :
  Text.is_space c = false -> exists r', Text.rstrip (String c r) = String c r'.
Proof.
  intros H. simpl. destruct (Text.rstrip r); [rewrite H|]; eauto.
Qed.

Lemma strip_trimmed s : trimmed (Text.strip s).
Proof.
  unfold trimmed, Text.strip. split; [|apply rstrip_rstrip].
  destruct (lstrip_head s) as [-> | (c & r & -> & Hc)]; [reflexivity|].
  destruct (rstrip_head c r Hc) as [r' ->]. simpl. by rewrite Hc.
Qed.

Lemma clean_window_title_some t phrases s :
  clean_window_title t phrases = Some s ->
  Text.contains "MediaBrain" t = false /\ trimmed s.
Proof.
  unfold clean_window_title. destruct (Text.contains "MediaBrain" t); [discriminate|].
  intros H. injection H as <-. split; [reflexivity | apply strip_trimmed].
Qed.

(** What the result of a provider for a window title looks like. *)
Lemma title_result_lookups ti ty so :
  let r := title_result ti ty so in
  r !! "type" = Some (PStr ty) /\ r !! "source" = Some (PStr so)
  /\ r !! "provider_id" = Some (PStr ti) /\ r !! "title" = Some (PStr ti)
  /\ r !! "has_real_id" = Some (PBool false)
  /\ r !! "length_seconds" = None /\ r !! "season" = None /\ r !! "episode" = None
  /\ r !! "open_method" = None.
Proof. repeat split; vm_compute; reflexivity. Qed.

Lemma title_result_shape p ti ty :
  ty ∈ allowed_types -> ti <> "" -> trimmed ti ->
  well_shaped p (title_result ti ty (source_of p)).
Proof.
  intros Hty Hne Htr.
  destruct (title_result_lookups ti ty (source_of p))
    as (L1 & L2 & L3 & L4 & L5 & L6 & L7 & L8 & L9).
  exists ty, ti, ti, false.
  split; [exact L1|]. split; [exact Hty|]. split; [exact L2|]. split; [exact L3|].
  split; [exact L4|]. split; [exact L5|].
  split; [intros _; split; [reflexivity | split; assumption]|].
  split; [intros _; exact Hne|]. auto.
Qed.

Lemma build_fallback_shape p s phrases ty names r :
  _build_fallback_result p s phrases ty names = Some r ->
  ty ∈ allowed_types -> trimmed (name p +:+ " " +:+ overview) ->
  well_shaped p r.
Proof.
  unfold _build_fallback_result. intros H Hty Hov.
  destruct (clean_window_title s phrases) as [[|c ti]|] eqn:E; try discriminate.
  apply clean_window_title_some in E as [_ Htr]. injection H as <-.
  destruct (existsb _ names).
  - apply title_result_shape; [exact Hty | by destruct p | exact Hov].
  - apply title_result_shape; [exact Hty | discriminate | exact Htr].
Qed.

Lemma title_fallback_shape p s phrases names ov ty r :
  title_fallback s phrases names ov ty (source_of p) = Some r ->
  ty ∈ allowed_types -> (names = [] \/ (ov <> "" /\ trimmed ov)) ->
  well_shaped p r.
Proof.
  unfold title_fallback. intros H Hty Hov.
  destruct (clean_window_title s phrases) as [[|c ti]|] eqn:E; try discriminate.
  apply clean_window_title_some in E as [_ Htr]. injection H as <-.
  destruct Hov as [-> | [Hov1 Hov2]]; simpl.
  - apply title_result_shape; [exact Hty | discriminate | exact Htr].
  - destruct (existsb _ names).
    + by apply title_result_shape.
    + apply title_result_shape; [exact Hty | discriminate | exact Htr].
Qed.

Lemma SUPPORTED_allowed x : SUPPORTED x ∈ allowed_types.
Proof.
  unfold SUPPORTED, allowed_types.
  repeat match goal with |- context [if ?b then _ else _] => destruct b end; in_list.
Qed.

Ltac structural_shape c :=
  eexists _, c, _, true;
  (split; [vm_compute; reflexivity|]); (split; [in_list|]);
  (split; [vm_compute; reflexivity|]); (split; [vm_compute; reflexivity|]);
  (split; [vm_compute; reflexivity|]); (split; [vm_compute; reflexivity|]);
  (split; [discriminate|]); (split; [intros _|repeat split; vm_compute; reflexivity]).

(** Every result of a provider is well shaped. *)
Lemma extract_info_shape fs p t r :
  extract_info fs p t = Some r -> well_shaped p r.
Proof.
  destruct p; unfold extract_info.
  - destruct (Re.netflix t) as [c|] eqn:E.
    + intros H. injection H as <-.
      pose proof (captured_not_empty NetflixWatch t c E). structural_shape c. auto.
    + intros H. eapply build_fallback_shape; [exact H | in_list |].
      split; vm_compute; reflexivity.
  - destruct (Re.disney t) as [c|] eqn:E.
    + intros H. injection H as <-.
      pose proof (captured_not_empty DisneyVideo t c E). structural_shape c. auto.
    + intros H. eapply build_fallback_shape; [exact H | in_list |].
      split; vm_compute; reflexivity.
  - destruct (Re.prime t) as [c|] eqn:E.
    + intros H. injection H as <-.
      pose proof (captured_not_empty PrimeDetail t c E). structural_shape c. auto.
    + destruct (Re.prime_watch t) as [c|] eqn:E'.
      * intros H. injection H as <-.
        pose proof (captured_not_empty AmazonDetail t c E'). structural_shape c. auto.
      * intros H. eapply (title_fallback_shape AmazonPrimeProvider); [exact H | in_list |].
        right. split; [discriminate | split; vm_compute; reflexivity].
  - destruct (Re.appletv t) as [c|] eqn:E.
    + intros H. injection H as <-.
      pose proof (captured_not_empty AppleTVContent t c E). structural_shape c. auto.
    + intros H. eapply (title_fallback_shape AppleTVProvider); [exact H | in_list |].
      right. split; [discriminate | split; vm_compute; reflexivity].
  - destruct (Re.youtube t) as [c|] eqn:E.
    + intros H. injection H as <-.
      pose proof (captured_not_empty YouTubeWatch t c E). structural_shape c. auto.
    + intros H. eapply build_fallback_shape; [exact H | in_list |].
      split; vm_compute; reflexivity.
  - assert (Hfb : forall r, title_fallback t [" - Twitch"] [] "" "clip" "twitch" = Some r ->
                    well_shaped TwitchProvider r).
    { intros r' H. eapply (title_fallback_shape TwitchProvider); [exact H | in_list |].
      by left. }
    destruct (Re.twitch t) as [c|] eqn:E; [|apply Hfb].
    destruct (negb _); [|apply Hfb].
    intros H. injection H as <-.
    pose proof (captured_not_empty TwitchChannel t c E). structural_shape c. auto.
  - destruct (Re.spotify t) as [[kind c]|] eqn:E.
    + intros H. injection H as <-.
      assert (c <> "") by (apply (captured_not_empty SpotifyContent t); simpl; by rewrite E).
      structural_shape c. auto.
    + intros H. eapply build_fallback_shape; [exact H | in_list |].
      split; vm_compute; reflexivity.
  - intros H. injection H as <-.
    exists (SUPPORTED (Text.lower (suffix fs t))), (resolve fs t), (stem fs t), true.
    split; [reflexivity|]. split; [apply SUPPORTED_allowed|].
    split; [reflexivity|]. split; [reflexivity|]. split; [reflexivity|].
    split; [reflexivity|]. split; [discriminate|]. split; [contradiction|].
    repeat split; reflexivity.
Qed.

Lemma extract_info_not_empty fs p t r : extract_info fs p t = Some r -> r <> ∅.
Proof.
  intros H E. apply extract_info_shape in H as (ty & pid & ti & hr & H & _).
  subst r. by rewrite lookup_empty in H.
Qed.

Lemma identify_in_some fs ps t r :
  identify_in fs ps t = Some r ->
  exists p, p ∈ ps /\ Forall (fun q => declines fs q t) (asked_before p ps)
    /\ matches fs p t = true /\ extract_info fs p t = Some r.
Proof.
  induction ps as [|q ps IH]; simpl; [discriminate|].
  destruct (matches fs q t) eqn:M.
  - destruct (extract_info fs q t) as [r'|] eqn:X.
    + rewrite bool_decide_false by (eapply extract_info_not_empty; exact X).
      intros H. injection H as ->. exists q. rewrite bool_decide_true by reflexivity.
      split; [apply list_elem_of_here|]. split; [constructor | auto].
    + intros H. destruct (IH H) as (p & Hp & Hd & Hm & Hx). exists p.
      split; [by apply list_elem_of_further|].
      destruct (bool_decide_reflect (q = p)) as [-> | Hne]; [congruence|].
      split; [|auto]. constructor; [by right | exact Hd].
  - intros H. destruct (IH H) as (p & Hp & Hd & Hm & Hx). exists p.
    split; [by apply list_elem_of_further|].
    destruct (bool_decide_reflect (q = p)) as [-> | Hne]; [congruence|].
    split; [|auto]. constructor; [by left | exact Hd].
Qed.

Lemma identify_in_none fs ps t :
  identify_in fs ps t = None <-> Forall (fun q => declines fs q t) ps.
Proof.
  induction ps as [|q ps IH]; simpl; [split; [constructor | reflexivity]|].
  rewrite Forall_cons. unfold declines at 1.
  destruct (matches fs q t) eqn:M.
  - destruct (extract_info fs q t) as [r'|] eqn:X.
    + rewrite bool_decide_false by (eapply extract_info_not_empty; exact X).
      split; [discriminate | intros [[H | H] _]; discriminate].
    + rewrite IH. split; [auto | tauto].
  - rewrite IH. split; [auto | tauto].
Qed.

Lemma identify_in_first fs ps p t r :
  Forall (fun q => declines fs q t) (asked_before p ps) -> p ∈ ps ->
  matches fs p t = true -> extract_info fs p t = Some r ->
  identify_in fs ps t = Some r.
Proof.
  induction ps as [|q ps IH]; intros Hd Hp Hm Hx; [by apply elem_of_nil in Hp|].
  cbn [asked_before] in Hd.
  destruct (bool_decide_reflect (q = p)) as [-> | Hne].
  - apply identify_in_accepts; [exact Hm | exact Hx |].
    eapply extract_info_not_empty; exact Hx.
  - apply Forall_cons in Hd as [Hq Hd]. rewrite identify_in_declines by exact Hq.
    apply IH; auto. apply elem_of_cons in Hp as [-> | Hp]; [contradiction | exact Hp].
Qed.

(** X10. The registry answers with the result of the first provider, in
    the order of its list, that matches the text and extracts something:
    it returns a result exactly when some provider gives it and every
    provider asked before declines, and it returns nothing exactly when
    every provider declines. The source of a result is that of its
    provider, which [get_provider_by_source] finds again. *)
Theorem registry_is_first_match fs t :
  (forall r, identify fs t = Some r
     <-> exists p, p ∈ providers
           /\ Forall (fun q => declines fs q t) (asked_before p providers)
           /\ matches fs p t = true /\ extract_info fs p t = Some r)
  /\ (identify fs t = None <-> Forall (fun q => declines fs q t) providers)
  /\ (forall p r, extract_info fs p t = Some r ->
        r !! "source" = Some (PStr (source_of p))
        /\ get_provider_by_source (source_of p) = Some p).
Proof.
  split; [|split].
  - intros r. split; [apply identify_in_some|].
    intros (p & Hp & Hd & Hm & Hx). by eapply identify_in_first.
  - apply identify_in_none.
  - intros p r H. apply extract_info_shape in H as (ty & pid & ti & hr & _ & _ & H & _).
    split; [exact H | by destruct p].
Qed.

Lemma validate_well_shaped p r origin :
  well_shaped p r ->
  (forall pid, r !! "provider_id" = Some (PStr pid) -> pid <> "") ->
  snd (validate (<["origin" := PStr origin]> r)) = None.
Proof.
  intros (ty & pid & ti & hr & H1 & Hty & H2 & H3 & H4 & H5 & _ & _ & H6 & H7 & H8 & _)
         Hpid.
  specialize (Hpid pid H3).
  set (e := <["origin" := PStr origin]> r).
  assert (L : forall k, k <> "origin" -> e !! k = r !! k).
  { intros k Hk. unfold e. by rewrite lookup_insert_ne. }
  unfold validate, required_fields, check_required.
  rewrite !L by discriminate. rewrite H1, H2, H3. cbn [truthy].
  assert (ty <> "").
  { intros ->. clear -Hty. unfold allowed_types in Hty.
    repeat (apply elem_of_cons in Hty as [Hty | Hty]; [discriminate|]).
    by apply elem_of_nil in Hty. }
  rewrite (proj2 (String.eqb_neq ty "")) by assumption.
  rewrite (proj2 (String.eqb_neq pid "")) by assumption.
  assert (negb (String.eqb (source_of p) "") = true) as -> by (by destruct p).
  cbn [negb].
  unfold check_type, get. rewrite L, H1 by discriminate.
  change (default PNone (Some (PStr ty))) with (PStr ty).
  assert (existsb (eq_str (PStr ty)) allowed_types = true) as ->.
  { apply existsb_exists. exists ty. split; [by apply list_elem_of_In|].
    simpl. apply String.eqb_refl. }
  unfold check_source, get. rewrite L, H2 by discriminate.
  change (py_str (default PNone (Some (PStr (source_of p))))) with (source_of p).
  assert (existsb (fun c => Text.contains c (source_of p)) forbidden_in_source = false)
    as -> by (by destruct p).
  unfold limit_title. rewrite L, H4 by discriminate. cbn [truthy].
  assert (forall d : dict,
            d !! "length_seconds" = None -> d !! "season" = None ->
            d !! "episode" = None ->
            snd (and_then (d, None) (fun d1 =>
                   and_then (check_numeric "length_seconds" d1) (fun d2 =>
                   and_then (check_numeric "season" d2) (fun d3 =>
                   check_numeric "episode" d3)))) = None) as Hnum.
  { intros d D1 D2 D3. cbn [and_then]. unfold check_numeric at 1. rewrite D1.
    cbn [and_then]. unfold check_numeric at 1. rewrite D2. cbn [and_then].
    unfold check_numeric. by rewrite D3. }
  destruct (negb (String.eqb ti "")).
  - destruct (500 <? String.length ti)%nat.
    + apply Hnum; rewrite lookup_insert_ne, L by discriminate; assumption.
    + apply Hnum; rewrite L by discriminate; assumption.
  - apply Hnum; rewrite L by discriminate; assumption.
Qed.

(** X11. What the registry returns is never rejected by ingestion: the
    signal that a dispatcher queues for a result of the registry passes
    validation, and processing it raises nothing (for a local file,
    provided that its resolved path is not empty). *)
Theorem registry_results_are_ingestible fs t r origin env db :
  identify fs t = Some r ->
  (r !! "source" = Some (PStr "local") -> resolve fs t <> "") ->
  let event := <["origin" := PStr origin]> r in
  dispatch fs t origin [] = [event]
  /\ snd (validate event) = None
  /\ raised (process_event env event db) = None.
Proof.
  intros Hi Hl event.
  assert (Hd : dispatch fs t origin [] = [event]).
  { unfold dispatch. rewrite Hi.
    apply identify_in_some in Hi as (p & _ & _ & _ & Hx).
    by rewrite bool_decide_false by (eapply extract_info_not_empty; exact Hx). }
  assert (Hv : snd (validate event) = None).
  { apply identify_in_some in Hi as (p & _ & _ & _ & Hx).
    pose proof (extract_info_shape fs p t r Hx) as Hs.
    apply (validate_well_shaped p); [exact Hs|].
    intros pid Hpid.
    destruct Hs as (ty & pid' & ti & hr & _ & _ & H2 & H3 & _ & _ & _ & Hne & _).
    rewrite H3 in Hpid. injection Hpid as <-.
    destruct (decide (p = LocalProvider)) as [-> | Hp]; [|by apply Hne].
    specialize (Hl H2). unfold extract_info in Hx. injection Hx as <-.
    vm_compute in H3. by injection H3 as <-. }
  split; [exact Hd|]. split; [exact Hv|].
  unfold process_event. by rewrite add_or_update_raised.
Qed.

Lemma fallback_not_own_window p s phrases ty names r :
  _build_fallback_result p s phrases ty names = Some r ->
  Text.contains "MediaBrain" s = false.
Proof.
  unfold _build_fallback_result.
  destruct (clean_window_title s phrases) as [ti|] eqn:E; [|discriminate].
  intros _. by apply clean_window_title_some in E as [E _].
Qed.

Lemma title_fallback_not_own_window s phrases names ov ty src r :
  title_fallback s phrases names ov ty src = Some r ->
  Text.contains "MediaBrain" s = false.
Proof.
  unfold title_fallback.
  destruct (clean_window_title s phrases) as [ti|] eqn:E; [|discriminate].
  intros _. by apply clean_window_title_some in E as [E _].
Qed.

Ltac real_id_true H :=
  let E := fresh in
  intros E; injection E as <-; vm_compute in H; discriminate.

Lemma title_match_not_own_window fs p t r :
  extract_info fs p t = Some r -> r !! "has_real_id" = Some (PBool false) ->
  Text.contains "MediaBrain" t = false.
Proof.
  intros Hx Hr. revert Hx. destruct p; unfold extract_info.
  - destruct (Re.netflix t); [real_id_true Hr | apply fallback_not_own_window].
  - destruct (Re.disney t); [real_id_true Hr | apply fallback_not_own_window].
  - destruct (Re.prime t); [real_id_true Hr|].
    destruct (Re.prime_watch t); [real_id_true Hr | apply title_fallback_not_own_window].
  - destruct (Re.appletv t); [real_id_true Hr | apply title_fallback_not_own_window].
  - destruct (Re.youtube t); [real_id_true Hr | apply fallback_not_own_window].
  - destruct (Re.twitch t); [|apply title_fallback_not_own_window].
    destruct (negb _); [real_id_true Hr | apply title_fallback_not_own_window].
  - destruct (Re.spotify t) as [[kind c]|];
      [real_id_true Hr | apply fallback_not_own_window].
  - real_id_true Hr.
Qed.

(** X12. Every result of the registry says whether its id is real, and
    has a title and a provider_id that are text. A result without a real
    id is a match of the window title: its provider_id is its title,
    which is not empty and has no white space at either end, and the text
    does not contain the name of the application; so the application's
    own window, unless it shows a structural address or names a file, is
    answered with nothing. *)
Theorem title_matches_are_clean fs t :
  (forall r, identify fs t = Some r ->
     exists hr ti pid,
       r !! "has_real_id" = Some (PBool hr) /\ r !! "title" = Some (PStr ti)
       /\ r !! "provider_id" = Some (PStr pid)
       /\ (hr = false ->
             pid = ti /\ ti <> "" /\ trimmed ti
             /\ Text.contains "MediaBrain" t = false))
  /\ (Text.contains "MediaBrain" t = true ->
        (forall pat, captured pat t = None) -> is_file fs t = false ->
        identify fs t = None).
Proof.
  split.
  - intros r Hi. apply identify_in_some in Hi as (p & _ & _ & _ & Hx).
    destruct (extract_info_shape fs p t r Hx)
      as (ty & pid & ti & hr & _ & _ & _ & H3 & H4 & H5 & H6 & _).
    exists hr, ti, pid. split; [exact H5|]. split; [exact H4|]. split; [exact H3|].
    intros ->. destruct (H6 eq_refl) as (E1 & E2 & E3).
    split; [exact E1|]. split; [exact E2|]. split; [exact E3|].
    eapply title_match_not_own_window; eassumption.
  - intros Hown Hpat Hfile. apply identify_in_none.
    assert (Hcw : forall phrases, clean_window_title t phrases = None).
    { intros phrases. unfold clean_window_title. by rewrite Hown. }
    pose proof (Hpat NetflixWatch) as P1. pose proof (Hpat DisneyVideo) as P2.
    pose proof (Hpat PrimeDetail) as P3. pose proof (Hpat AmazonDetail) as P4.
    pose proof (Hpat AppleTVContent) as P5. pose proof (Hpat YouTubeWatch) as P6.
    pose proof (Hpat TwitchChannel) as P7. pose proof (Hpat SpotifyContent) as P8.
    simpl in P1, P2, P3, P4, P5, P6, P7, P8.
    destruct (Re.spotify t) as [x|] eqn:P9; [discriminate|].
    assert (D : forall q, q <> LocalProvider -> extract_info fs q t = None).
    { intros q Hq.
      destruct q; unfold extract_info, _build_fallback_result, title_fallback;
        rewrite ?P1, ?P2, ?P3, ?P4, ?P5, ?P6, ?P7, ?P9, ?Hcw; try reflexivity.
      contradiction. }
    apply Forall_forall. intros q _.
    destruct (decide (q = LocalProvider)) as [-> | Hq];
      [left; exact Hfile | right; by apply D].
Qed.

(** ** The file indexer: every file once *)

Lemma _process_file_grows fs file known q :
  let st' := _process_file fs file (known, q) in
  known ⊆ fst st'
  /\ (existsb (String.eqb (Text.lower (suffix fs file))) indexed_suffixes = true ->
        resolve fs file ∈ fst st')
  /\ exists new, snd st' = q ++ new /\ (length new <= 1)%nat
       /\ Forall (fun e => get_default e "origin" (PStr "external")
                           = PStr "file_indexer") new.
Proof.
  assert (N : exists new : list dict, q = q ++ new /\ (length new <= 1)%nat
       /\ Forall (fun e => get_default e "origin" (PStr "external")
                           = PStr "file_indexer") new).
  { exists []. rewrite app_nil_r. split; [reflexivity|].
    split; [simpl; lia | constructor]. }
  unfold _process_file.
  destruct (existsb _ indexed_suffixes) eqn:E.
  - destruct (bool_decide_reflect (resolve fs file ∈ known)) as [Hin | Hin];
      cbn [fst snd].
    + split; [reflexivity|]. split; [auto | exact N].
    + split; [apply union_subseteq_r|].
      split; [intros _; by apply elem_of_union_l, elem_of_singleton|].
      destruct (dispatch_origin fs (resolve fs file) "file_indexer" q)
        as [-> | (info & -> & Ho)]; [exact N|].
      exists [info]. split; [reflexivity|]. split; [simpl; lia|].
      by apply Forall_singleton.
  - cbn [fst snd]. split; [reflexivity|]. split; [discriminate | exact N].
Qed.

Lemma _process_file_known fs file known q :
  (existsb (String.eqb (Text.lower (suffix fs file))) indexed_suffixes = true ->
     resolve fs file ∈ known) ->
  _process_file fs file (known, q) = (known, q).
Proof.
  unfold _process_file. destruct (existsb _ indexed_suffixes); [|reflexivity].
  intros H. by rewrite bool_decide_true by auto.
Qed.

Lemma process_files_grows fs files : forall known q,
  let st' := process_files fs files (known, q) in
  known ⊆ fst st'
  /\ (forall file, file ∈ files ->
        existsb (String.eqb (Text.lower (suffix fs file))) indexed_suffixes = true ->
        resolve fs file ∈ fst st')
  /\ exists new, snd st' = q ++ new /\ (length new <= length files)%nat
       /\ Forall (fun e => get_default e "origin" (PStr "external")
                           = PStr "file_indexer") new.
Proof.
  unfold process_files.
  induction files as [|f files IH]; intros known q; cbn [fold_left].
  - cbn [fst snd]. split; [reflexivity|].
    split; [intros file H; by apply elem_of_nil in H|].
    exists []. rewrite app_nil_r. split; [reflexivity|]. split; [simpl; lia | constructor].
  - destruct (_process_file_grows fs f known q) as (G1 & G2 & new1 & G3 & G4 & G5).
    destruct (_process_file fs f (known, q)) as [known1 q1].
    cbn [fst snd] in G1, G2, G3.
    destruct (IH known1 q1) as (I1 & I2 & new2 & I3 & I4 & I5).
    split; [by trans known1|]. split.
    + intros file Hin Hs. apply elem_of_cons in Hin as [-> | Hin]; [|by apply I2].
      apply I1. by apply G2.
    + exists (new1 ++ new2). rewrite I3, G3, app_assoc. split; [reflexivity|].
      split; [rewrite length_app; cbn [length]; lia | by apply Forall_app].
Qed.

(** X13. The file indexer dispatches a file at most once: after a run of
    [_process_file] over any files, processing one of them again (or any
    file with the same resolved path, or a file whose suffix is not
    indexed) changes neither the set of known files nor the queue. A run
    only adds to the set and to the end of the queue, at most one signal
    for each file, each with the origin [file_indexer]. *)
Theorem file_indexer_dispatches_once fs files known q :
  let st' := process_files fs files (known, q) in
  (forall file, file ∈ files -> _process_file fs file st' = st')
  /\ (forall file, resolve fs file ∈ fst st' -> _process_file fs file st' = st')
  /\ (forall file,
        existsb (String.eqb (Text.lower (suffix fs file))) indexed_suffixes = false ->
        _process_file fs file st' = st')
  /\ known ⊆ fst st'
  /\ exists new, snd st' = q ++ new /\ (length new <= length files)%nat
       /\ Forall (fun e => get_default e "origin" (PStr "external")
                           = PStr "file_indexer") new.
Proof.
  intros st'. destruct (process_files_grows fs files known q) as (G1 & G2 & G3).
  fold st' in G1, G2, G3. destruct st' as [known' q']. cbn [fst snd] in *.
  split; [|split; [|split; [|split]]].
  - intros file Hin. apply _process_file_known. intros Hs. by apply G2.
  - intros file Hin. apply _process_file_known. auto.
  - intros file Hs. apply _process_file_known. rewrite Hs. discriminate.
  - exact G1.
  - exact G3.
Qed.

(** ** The library views: [list_by_type] *)

Lemma place_perm r l : place r l ≡ₚ r :: l.
Proof.
  induction l as [|x l IH]; simpl; [reflexivity|].
  destruct (listed_before r x); [reflexivity|].
  rewrite IH. apply Permutation_swap.
Qed.

Lemma order_by_perm l : order_by l ≡ₚ l.
Proof.
  induction l as [|x l IH]; simpl; [reflexivity|].
  by rewrite place_perm, IH.
Qed.

Lemma opened_leb_total a b : opened_leb a b = false -> opened_leb b a = true.
Proof. destruct a, b; simpl; try done. intros H. apply Z.leb_le. apply Z.leb_gt in H. lia. Qed.

Lemma opened_leb_trans a b c :
  opened_leb a b = true -> opened_leb b c = true -> opened_leb a c = true.
Proof.
  destruct a, b, c; simpl; try done. rewrite !Z.leb_le. lia.
Qed.

Lemma listed_before_total a b : listed_before a b = false -> listed_before b a = true.
Proof.
  unfold listed_before. intros H. apply orb_false_iff in H as [H1 H2].
  apply Z.ltb_ge in H1. destruct (Z.ltb_spec (is_favorite a) (is_favorite b)); [done|].
  assert (E : is_favorite b = is_favorite a) by lia.
  rewrite E, Z.eqb_refl in *. simpl in *. by apply opened_leb_total.
Qed.

Lemma listed_before_trans a b c :
  listed_before a b = true -> listed_before b c = true -> listed_before a c = true.
Proof.
  unfold listed_before. intros H1 H2.
  apply orb_true_iff in H1 as [H1 | H1]; apply orb_true_iff in H2 as [H2 | H2];
    repeat match goal with
    | H : _ && _ = true |- _ => apply andb_true_iff in H as [? ?]
    | H : (_ <? _) = true |- _ => apply Z.ltb_lt in H
    | H : (_ =? _) = true |- _ => apply Z.eqb_eq in H
    end.
  - apply orb_true_iff. left. apply Z.ltb_lt. lia.
  - apply orb_true_iff. left. apply Z.ltb_lt. lia.
  - apply orb_true_iff. left. apply Z.ltb_lt. lia.
  - apply orb_true_iff. right. apply andb_true_iff. split; [apply Z.eqb_eq; lia|].
    eapply opened_leb_trans; eassumption.
Qed.

Lemma place_in_order r l : in_listing_order l -> in_listing_order (place r l).
Proof.
  induction l as [|x l IH]; simpl; [by split|].
  intros [Hx Hl]. destruct (listed_before r x) eqn:E; simpl.
  - split; [|by split]. constructor; [exact E|].
    eapply Forall_impl; [exact Hx|]. intros y Hy. simpl in Hy.
    by apply (listed_before_trans r x y).
  - split; [|by apply IH].
    rewrite place_perm. constructor; [by apply listed_before_total | exact Hx].
Qed.

Lemma order_by_in_order l : in_listing_order (order_by l).
Proof. induction l as [|x l IH]; simpl; [done|]. by apply place_in_order. Qed.

Lemma in_listing_order_lookup l : in_listing_order l ->
  forall i j a b, (i < j)%nat -> l !! i = Some a -> l !! j = Some b ->
    listed_before a b = true.
Proof.
  induction l as [|x l IH]; simpl; intros H i j a b Hij Ha Hb; [done|].
  destruct H as [Hx Hl]. destruct j as [|j]; [lia|]. simpl in Hb.
  destruct i as [|i]; simpl in Ha.
  - injection Ha as ->. rewrite Forall_forall in Hx. apply Hx.
    by eapply list_elem_of_lookup_2.
  - apply (IH Hl i j a b); [lia | done | done].
Qed.

Lemma listed_before_spec a b :
  listed_before a b = true <->
  is_favorite b < is_favorite a
  \/ (is_favorite a = is_favorite b
      /\ match last_opened_at a, last_opened_at b with
         | _, None => True
         | None, Some _ => False
         | Some x, Some y => y <= x
         end).
Proof.
  unfold listed_before, opened_leb.
  rewrite orb_true_iff, andb_true_iff, Z.ltb_lt, Z.eqb_eq.
  destruct (last_opened_at a), (last_opened_at b); rewrite ?Z.leb_le;
    split; (intros [H | [H1 H2]]; [by left | right; split; (done || lia)]).
Qed.

Lemma list_by_type_elem r media_type db :
  r ∈ list_by_type media_type db <->
  r ∈ rows db /\ to_text media_type = Some (type r) /\ blacklist_flag r = 0.
Proof.
  unfold list_by_type. rewrite order_by_perm, list_elem_of_filter. tauto.
Qed.

(** X14. [list_by_type] returns the records of the type that are not
    suppressed, each as often as the table has it and no other (none for
    the type None). They stand in the order of the query: of two records
    the one with the greater is_favorite comes first, and of two with
    the same is_favorite the one opened later; a record never opened
    comes after those that were. *)
Theorem list_by_type_spec media_type db :
  let l := list_by_type media_type db in
  l ≡ₚ filter (fun r => to_text media_type = Some (type r)
                         /\ blacklist_flag r = 0) (rows db)
  /\ (media_type = PNone -> l = [])
  /\ forall i j a b, (i < j)%nat -> l !! i = Some a -> l !! j = Some b ->
       is_favorite b < is_favorite a
       \/ (is_favorite a = is_favorite b
           /\ match last_opened_at a, last_opened_at b with
              | _, None => True
              | None, Some _ => False
              | Some x, Some y => y <= x
              end).
Proof.
  intros l. split; [apply order_by_perm|]. split.
  - intros ->. subst l. unfold list_by_type.
    induction (rows db) as [|r rs IH]; [reflexivity|].
    rewrite filter_cons. destruct (decide _) as [[H _] | _]; [discriminate | exact IH].
  - intros i j a b Hij Ha Hb. apply listed_before_spec.
    by apply (in_listing_order_lookup l (order_by_in_order _) i j).
Qed.

Lemma update_where_id_elem item_id f db r' :
  r' ∈ rows (update_where_id item_id f db) <->
  exists r, r ∈ rows db /\ r' = (if id r =? item_id then f r else r).
Proof.
  unfold update_where_id. cbn [rows]. rewrite list_elem_of_fmap.
  split; intros (r & H1 & H2); exists r; by split.
Qed.

(** X15. Suppression and the library views. After a record is
    suppressed no view lists a record with its id; lifting the
    suppression lists each record with the id under its type again; and
    whether a record with another id is listed is not changed by either
    call. *)
Theorem suppression_hides_from_views item_id enabled code t db media_type :
  let db' := set_blacklist item_id enabled code t db in
  (enabled = true ->
     forall r, r ∈ list_by_type media_type db' -> id r <> item_id)
  /\ (enabled = false ->
        forall r, r ∈ rows db -> id r = item_id -> to_text media_type = Some (type r) ->
          set_suppression 0 None 0 r ∈ list_by_type media_type db')
  /\ (forall r, id r <> item_id ->
        (r ∈ list_by_type media_type db' <-> r ∈ list_by_type media_type db)).
Proof.
  intros db'. subst db'. unfold set_blacklist. split; [|split].
  - intros -> r' H. apply list_by_type_elem in H as (H & _ & Hflag).
    apply update_where_id_elem in H as (r & _ & ->).
    destruct (Z.eqb_spec (id r) item_id) as [E|E]; [|exact E].
    simpl in Hflag. discriminate.
  - intros -> r Hr Hid Hty. apply list_by_type_elem. split; [|by split].
    apply update_where_id_elem. exists r. split; [exact Hr|].
    by rewrite (proj2 (Z.eqb_eq _ _) Hid).
  - intros r' Hid. rewrite !list_by_type_elem.
    assert (M : forall f, (forall r, id (f r) = id r) ->
              (r' ∈ rows (update_where_id item_id f db) <-> r' ∈ rows db)).
    { intros f Hf. rewrite update_where_id_elem. split.
      - intros (r & Hr & ->). destruct (Z.eqb_spec (id r) item_id) as [E|E]; [|exact Hr].
        rewrite Hf in Hid. contradiction.
      - intros Hr. exists r'. split; [exact Hr|].
        by rewrite (proj2 (Z.eqb_neq _ _) Hid). }
    destruct enabled; rewrite M by reflexivity; reflexivity.
Qed.


(** ** The event loop over many ticks *)

Lemma apply_batch_events env batch : forall i db,
  apply_batch env i batch db
  = apply_events (zip (map env (List.seq i (length batch))) batch) db.
Proof.
  unfold apply_events.
  induction batch as [|e batch IH]; intros i db; simpl; [reflexivity|].
  by rewrite IH.
Qed.

Lemma refreshes_app es es' :
  length (List.filter (fun e => bool_decide (e = RefreshAllViews)) (es ++ es'))
  = (length (List.filter (fun e => bool_decide (e = RefreshAllViews)) es)
     + length (List.filter (fun e => bool_decide (e = RefreshAllViews)) es'))%nat.
Proof. by rewrite List.filter_app, length_app. Qed.

Lemma refreshes_errors l :
  List.filter (fun e => bool_decide (e = RefreshAllViews)) (map LogError l) = [].
Proof. induction l as [|x l IH]; simpl; [reflexivity | exact IH]. Qed.

(** X17. The queue over many ticks is first in, first out, and loses
    nothing: after [n] ticks the events handled so far followed by the
    events still queued are the events that were queued at the start
    followed by those that arrived, in their order. The database is the
    result of [process_event] on the handled events one after the other.
    No tick handles more than 50 events or refreshes the views more than
    once; when nothing arrives, [n] ticks handle the first [50 * n]
    events of the queue. *)
Theorem ticks_are_fifo env arrivals : forall n k q db,
  let '(db', q', es) := run_ticks env arrivals k n q db in
  exists handled envs,
    handled ++ q' = q ++ arrived arrivals k n
    /\ length envs = length handled
    /\ db' = apply_events (zip envs handled) db
    /\ (length handled <= 50 * n)%nat
    /\ (length (List.filter (fun e => bool_decide (e = RefreshAllViews)) es) <= n)%nat
    /\ ((forall j, arrivals j = []) -> handled = take (50 * n) q).
Proof.
  induction n as [|n IH]; intros k q db.
  - simpl. exists [], []. rewrite app_nil_r. simpl.
    split; [done|]. split; [done|]. split; [done|]. split; [lia|]. split; [lia|]. done.
  - cbn [run_ticks].
    destruct (process_queue_spec (env k) (q ++ arrivals k) db) as (P1 & P2 & P3).
    specialize (IH (S k) (tick_queue (process_queue (env k) (q ++ arrivals k) db))
                   (tick_db (process_queue (env k) (q ++ arrivals k) db))).
    destruct (run_ticks env arrivals (S k) n _ _) as [[db' q'] es].
    destruct IH as (handled & envs & H1 & H2 & H3 & H4 & H5 & H6).
    set (batch := take 50 (q ++ arrivals k)) in *.
    exists (batch ++ handled), (map (env k) (List.seq 0 (length batch)) ++ envs).
    split; [|split; [|split; [|split; [|split]]]].
    + rewrite <- app_assoc, H1, P2. cbn [arrived]. subst batch.
      rewrite (app_assoc (take _ _)), (take_drop 50 (q ++ arrivals k)).
      by rewrite <- app_assoc.
    + rewrite !length_app, length_map, length_seq. lia.
    + rewrite H3, P1. rewrite apply_batch_events. unfold apply_events.
      rewrite zip_with_app by (by rewrite length_map, length_seq).
      by rewrite fold_left_app.
    + rewrite length_app. subst batch. rewrite length_take. lia.
    + rewrite refreshes_app, P3, refreshes_app, refreshes_errors.
      destruct (batch_applied _ _ _ _); simpl; lia.
    + intros Hno. rewrite (H6 Hno), P2. subst batch. rewrite Hno, app_nil_r.
      replace (50 * S n)%nat with (50 + 50 * n)%nat by lia.
      by rewrite take_take_drop.
Qed.

(** ** Opening a record: the address and the registry *)

Lemma span_all cls s : all_in cls s = true -> Text.span cls s = (s, "").
Proof.
  induction s as [|c s IH]; simpl; [reflexivity|].
  intros H. apply andb_true_iff in H as [-> H]. by rewrite IH.
Qed.

Lemma group_end_all cls s :
  s <> "" -> all_in cls s = true -> Re.group_end cls s = Some s.
Proof.
  intros Hs H. unfold Re.group_end, Re.plus. rewrite span_all by exact H.
  by destruct s.
Qed.

Lemma all_in_app cls a b : all_in cls (a +:+ b) = all_in cls a && all_in cls b.
Proof.
  unfold String.app. induction a as [|c a IH]; simpl; [reflexivity|].
  by rewrite IH, andb_assoc.
Qed.

Lemma strip_prefix_outside cls p s :
  all_in cls p = false -> all_in cls s = true -> Text.strip_prefix p s = None.
Proof.
  intros Hp Hs. destruct (Text.strip_prefix _ s) as [r|] eqn:E; [|reflexivity].
  apply strip_prefix_spec in E. subst s.
  rewrite all_in_app, Hp in Hs. discriminate.
Qed.

Lemma all_in_tail cls c s : all_in cls (String c s) = true -> all_in cls s = true.
Proof. simpl. intros H. by apply andb_true_iff in H as [_ H]. Qed.

Lemma search_lit_outside {A} cls p (k : string -> option A) s :
  all_in cls p = false -> all_in cls s = true ->
  Re.search (Re.lit p k) s = None.
Proof.
  intros Hp. induction s as [|x s IH]; intros Hs; simpl; unfold Re.lit;
    rewrite (strip_prefix_outside cls) by done; [reflexivity|].
  apply IH. by eapply all_in_tail.
Qed.

Lemma contains_outside cls p s :
  all_in cls p = false -> all_in cls s = true -> Text.contains p s = false.
Proof.
  intros Hp. induction s as [|x s IH]; intros Hs; simpl; unfold Text.starts_with;
    rewrite (strip_prefix_outside cls) by done; [reflexivity|].
  apply IH. by eapply all_in_tail.
Qed.

Lemma search_skip {A} (at_start : string -> option A) c s :
  at_start (String c s) = None ->
  Re.search at_start (String c s) = Re.search at_start s.
Proof. intros H. simpl. by rewrite H. Qed.

Lemma contains_skip p c s :
  Text.starts_with p (String c s) = false ->
  Text.contains p (String c s) = Text.contains p s.
Proof. intros H. simpl. by rewrite H. Qed.

Lemma lower_app a b : Text.lower (a +:+ b) = Text.lower a +:+ Text.lower b.
Proof. unfold String.app. induction a as [|c a IH]; simpl; [reflexivity | by rewrite IH]. Qed.

Lemma all_in_lower cls s :
  (forall c, cls c = true -> cls (Text.lower_char c) = true) ->
  all_in cls s = true -> all_in cls (Text.lower s) = true.
Proof.
  intros Hc. induction s as [|x s IH]; simpl; [done|].
  intros H. apply andb_true_iff in H as [H1 H2]. by rewrite Hc, IH.
Qed.

Lemma word_or_dash_lower c :
  Re.word_or_dash c = true -> Re.word_or_dash (Text.lower_char c) = true.
Proof. destruct c as [[] [] [] [] [] [] [] []]; vm_compute; auto. Qed.

Ltac skip_prefix :=
  repeat first [ rewrite search_skip by reflexivity
               | rewrite contains_skip by reflexivity ].

Lemma alnum_lower c :
  Text.is_alnum c = true -> Text.is_alnum (Text.lower_char c) = true.
Proof. destruct c as [[] [] [] [] [] [] [] []]; vm_compute; auto. Qed.

Lemma search_here {A} (at_start : string -> option A) s a :
  at_start s = Some a -> Re.search at_start s = Some a.
Proof. intros H. destruct s; simpl; by rewrite H. Qed.

Lemma identify_in_declined fs p ps s :
  matches fs p s = false -> identify_in fs (p :: ps) s = identify_in fs ps s.
Proof. intros H. simpl. by rewrite H. Qed.

(** A provider does not claim an address whose id is over [cls]. *)
Ltac declines cls H Hl :=
  unfold matches, Re.netflix, Re.disney, Re.prime, Re.prime_watch, Re.appletv,
    Re.youtube, Re.twitch;
  rewrite ?lower_app; unfold String.app; cbn [String.append Text.lower];
  skip_prefix;
  rewrite ?(search_lit_outside cls) by first [exact H | reflexivity];
  rewrite ?(contains_outside cls) by first [exact H | exact Hl | reflexivity];
  cbn [is_Some]; rewrite ?bool_decide_false by (by intros [? ?]);
  repeat match goal with Hc : Text.contains _ _ = false |- _ => rewrite Hc; clear Hc end;
  reflexivity.

Ltac captured_here :=
  unfold Re.netflix, Re.youtube, Re.spotify, String.app; cbn [String.append];
  skip_prefix; apply search_here; unfold Re.lit;
  cbn [Text.strip_prefix Ascii.eqb Bool.eqb Re.alt Re.lit].

Lemma netflix_url_captured pid :
  pid <> "" -> all_in Text.is_digit pid = true ->
  Re.netflix ("https://www.netflix.com/watch/" +:+ pid) = Some pid.
Proof. intros Hs H. captured_here. by apply group_end_all. Qed.

Lemma youtube_url_captured pid :
  pid <> "" -> all_in Re.word_or_dash pid = true ->
  Re.youtube ("https://www.youtube.com/watch?v=" +:+ pid) = Some pid.
Proof. intros Hs H. captured_here. by apply group_end_all. Qed.

Lemma spotify_url_captured pid :
  pid <> "" -> all_in Text.is_alnum pid = true ->
  Re.spotify ("https://open.spotify.com/track/" +:+ pid) = Some ("track", pid).
Proof.
  intros Hs H. captured_here. unfold Re.lit. cbn [Text.strip_prefix Ascii.eqb Bool.eqb].
  unfold Re.plus. rewrite span_all by exact H. by destruct pid.
Qed.

(** X18. The address that [_build_browser_url] builds for a record of
    Netflix, YouTube or Spotify leads back to the record: when the
    provider_id is addressable, the registry reads the address as a
    structural match of the same source with the same provider_id. For
    a record of any other source there is neither an address nor a deep
    link. *)
Theorem browser_url_round_trip fs item :
  (forall pid, provider_id item = Some pid -> addressable (source item) pid ->
     exists url r,
       _build_browser_url item = Some url
       /\ identify fs url = Some r
       /\ r !! "source" = Some (PStr (source item))
       /\ r !! "provider_id" = Some (PStr pid)
       /\ r !! "has_real_id" = Some (PBool true))
  /\ (source item ∉ ["netflix"; "youtube"; "spotify"] ->
        _build_browser_url item = None /\ _build_deep_link item = None).
Proof.
  split.
  - intros pid Hp [Hs [[Hsrc H] | [(Hsrc & H & N1 & N2 & N3)
                                  | (Hsrc & H & N1 & N2 & N3 & N4 & N5)]]];
      unfold _build_browser_url, fmt; rewrite Hsrc, Hp;
      change (default "None" (Some pid)) with pid;
      cbn [String.eqb Ascii.eqb Bool.eqb];
      eexists; eexists; (split; [reflexivity|]); unfold identify, providers.
    + pose proof (netflix_url_captured pid Hs H) as Y.
      split; [apply identify_in_accepts;
                [unfold matches; rewrite Y; cbn [is_Some];
                 by rewrite bool_decide_true by eauto
                |unfold extract_info; rewrite Y; reflexivity
                |apply mk_dict_not_empty]|].
      split; [reflexivity|]. split; reflexivity.
    + pose proof (youtube_url_captured pid Hs H) as Y.
      assert (Hl := all_in_lower _ _ word_or_dash_lower H).
      rewrite (identify_in_declined fs NetflixProvider) by declines Re.word_or_dash H Hl.
      rewrite (identify_in_declined fs DisneyPlusProvider) by declines Re.word_or_dash H Hl.
      rewrite (identify_in_declined fs AmazonPrimeProvider) by declines Re.word_or_dash H Hl.
      rewrite (identify_in_declined fs AppleTVProvider) by declines Re.word_or_dash H Hl.
      split; [apply identify_in_accepts;
                [unfold matches; rewrite Y; cbn [is_Some];
                 by rewrite bool_decide_true by eauto
                |unfold extract_info; rewrite Y; reflexivity
                |apply mk_dict_not_empty]|].
      split; [reflexivity|]. split; reflexivity.
    + pose proof (spotify_url_captured pid Hs H) as Y.
      assert (Hl := all_in_lower _ _ alnum_lower H).
      rewrite (identify_in_declined fs NetflixProvider) by declines Text.is_alnum H Hl.
      rewrite (identify_in_declined fs DisneyPlusProvider) by declines Text.is_alnum H Hl.
      rewrite (identify_in_declined fs AmazonPrimeProvider) by declines Text.is_alnum H Hl.
      rewrite (identify_in_declined fs AppleTVProvider) by declines Text.is_alnum H Hl.
      rewrite (identify_in_declined fs YouTubeProvider) by declines Text.is_alnum H Hl.
      rewrite (identify_in_declined fs TwitchProvider) by declines Text.is_alnum H Hl.
      split; [apply identify_in_accepts;
                [unfold matches; rewrite Y; cbn [is_Some];
                 rewrite bool_decide_true by eauto; apply orb_true_r
                |unfold extract_info; rewrite Y; reflexivity
                |apply mk_dict_not_empty]|].
      split; [reflexivity|]. split; reflexivity.
  - intros Hn. unfold _build_browser_url, _build_deep_link.
    destruct (String.eqb_spec (source item) "netflix") as [E|_];
      [rewrite E in Hn; exfalso; apply Hn; in_list|].
    destruct (String.eqb_spec (source item) "youtube") as [E|_];
      [rewrite E in Hn; exfalso; apply Hn; in_list|].
    destruct (String.eqb_spec (source item) "spotify") as [E|_];
      [rewrite E in Hn; exfalso; apply Hn; in_list|].
    split; reflexivity.
Qed.

(** The side conditions of [addressable] are needed: the address of a
    YouTube video whose id contains the name of Netflix is read as a
    window title of Netflix. *)
Example youtube_id_with_a_service_name :
  (identify no_files "https://www.youtube.com/watch?v=abNetflixcd"
     ≫= fun r => r !! "source") = Some (PStr "netflix").
Proof. vm_compute. reflexivity. Qed.

(** ** Validation: the numeric fields *)

Lemma check_numeric_converted f d :
  snd (check_numeric f d) = None ->
  match d !! f with
  | None => fst (check_numeric f d) !! f = None
  | Some v =>
      if is_none v then fst (check_numeric f d) !! f = Some v
      else exists z, py_int v = Some z /\ 0 <= z
                     /\ fst (check_numeric f d) !! f = Some (PInt z)
  end.
Proof.
  unfold check_numeric. destruct (d !! f) as [v|] eqn:E; [|intros _; exact E].
  destruct (is_none v); [intros _; exact E|].
  destruct (py_int v) as [z|]; [|discriminate].
  destruct (z <? 0) eqn:L; [discriminate|]. intros _. cbn [fst].
  exists z. apply Z.ltb_ge in L. by rewrite lookup_insert_eq.
Qed.

(** X3. When validation passes, each of length_seconds, season and
    episode holds afterwards what [int] makes of the incoming value,
    and that is not negative; a field that is missing stays missing and
    a field that is None stays None. *)
Theorem validated_numbers_are_converted d k :
  snd (validate d) = None ->
  k ∈ ["length_seconds"; "season"; "episode"] ->
  match d !! k with
  | None => fst (validate d) !! k = None
  | Some v =>
      if is_none v then fst (validate d) !! k = Some v
      else exists z, py_int v = Some z /\ 0 <= z
                     /\ fst (validate d) !! k = Some (PInt z)
  end.
Proof.
  unfold validate.
  destruct (check_required _ _); [discriminate|].
  destruct (check_type _); [discriminate|].
  destruct (check_source _); [discriminate|].
  pose proof (limit_title_keeps d) as K1.
  destruct (limit_title d) as [d1 [e1|]]; cbn [and_then fst snd] in *; [discriminate|].
  pose proof (check_numeric_converted "length_seconds" d1) as T2.
  pose proof (check_numeric_keeps "length_seconds" d1) as K2.
  destruct (check_numeric "length_seconds" d1) as [d2 [e2|]];
    cbn [and_then fst snd] in *; [discriminate|].
  pose proof (check_numeric_converted "season" d2) as T3.
  pose proof (check_numeric_keeps "season" d2) as K3.
  destruct (check_numeric "season" d2) as [d3 [e3|]];
    cbn [and_then fst snd] in *; [discriminate|].
  pose proof (check_numeric_converted "episode" d3) as T4.
  pose proof (check_numeric_keeps "episode" d3) as K4.
  destruct (check_numeric "episode" d3) as [d4 [e4|]];
    cbn [and_then fst snd] in *; [discriminate|].
  intros _ Hk. each_of Hk.
  - rewrite K4, K3 by discriminate. rewrite <- (K1 "length_seconds") by discriminate.
    by apply T2.
  - rewrite K4 by discriminate.
    rewrite <- (K1 "season"), <- (K2 "season") by discriminate. by apply T3.
  - rewrite <- (K1 "episode"), <- (K2 "episode"), <- (K3 "episode") by discriminate.
    by apply T4.
Qed.

(** ** The further properties at sample inputs *)

(** X1 at the title of [stranger_things]. *)
Lemma validated_title_is_bounded_witness :
  snd (validate stranger_things) = None
  /\ stranger_things !! "title" = Some (PStr "Netflix Inhalt 80057281")
  /\ fst (validate stranger_things) !! "title" = Some (PStr "Netflix Inhalt 80057281").
Proof.
  assert (H1 : snd (validate stranger_things) = None) by (vm_compute; reflexivity).
  assert (H2 : stranger_things !! "title" = Some (PStr "Netflix Inhalt 80057281"))
    by (vm_compute; reflexivity).
  split; [exact H1|]. split; [exact H2|].
  exact (proj1 (validated_title_is_bounded stranger_things _ H1 H2)).
Defined.

(** X2 at [stranger_things]. *)
Lemma validate_settles_witness :
  snd (validate stranger_things) = None
  /\ validate (fst (validate stranger_things)) = (fst (validate stranger_things), None).
Proof.
  assert (H1 : snd (validate stranger_things) = None) by (vm_compute; reflexivity).
  split; [exact H1 | exact (validate_settles stranger_things H1)].
Defined.

(** X3 at an identification whose season is the text [ 7 ]. *)
Lemma validated_numbers_are_converted_witness :
  let d := <["season" := PStr " 7 "]> stranger_things in
  snd (validate d) = None
  /\ "season" ∈ ["length_seconds"; "season"; "episode"]
  /\ match d !! "season" with
     | None => fst (validate d) !! "season" = None
     | Some v =>
         if is_none v then fst (validate d) !! "season" = Some v
         else exists z, py_int v = Some z /\ 0 <= z
                        /\ fst (validate d) !! "season" = Some (PInt z)
     end.
Proof.
  intros d.
  assert (H1 : snd (validate d) = None) by (vm_compute; reflexivity).
  assert (H2 : "season" ∈ ["length_seconds"; "season"; "episode"]) by in_list.
  split; [exact H1|]. split; [exact H2|].
  exact (validated_numbers_are_converted d "season" H1 H2).
Defined.

(** X5 at the one record of [one_record]. *)
Lemma lookup_by_fingerprint_witness :
  well_formed one_record
  /\ (get_by_provider (PStr "80057281") (PStr "netflix") one_record = Some one_row
      <-> In one_row (rows one_record) /\ fingerprint one_row = Some ("80057281", "netflix")).
Proof.
  assert (W : well_formed one_record).
  { rewrite one_record_rows. unfold well_formed, fingerprints. cbn.
    split; [apply NoDup_singleton|]. split; [apply NoDup_singleton|].
    split; [lia|]. constructor; [unfold one_row; simpl; lia | constructor]. }
  split; [exact W|].
  exact (proj1 (lookup_by_fingerprint one_record "80057281" "netflix" one_row W)).
Defined.


(** X7 at a record suppressed for a week, swept eight days later. *)
Lemma sweep_frame_and_idempotence_witness :
  unique_ids week_db
  /\ let clock := fun _ : Z => 2000 + days 8 in
     refresh_blacklist clock (refresh_blacklist clock week_db)
     = refresh_blacklist clock week_db.
Proof.
  assert (H1 : unique_ids week_db).
  { unfold unique_ids. simpl. constructor; [by intros H%elem_of_nil | constructor]. }
  split; [exact H1|].
  exact (proj2 (proj2 (sweep_frame_and_idempotence (fun _ => 2000 + days 8) week_db H1))).
Defined.

(** X9 at the one record of [one_record], suppressed for ever and
    released. *)
Lemma lift_undoes_suppress_witness :
  Forall (fun r => id r = 1 -> inactive r) (rows one_record)
  /\ set_blacklist 1 false 0 3000 (set_blacklist 1 true 6 2000 one_record) = one_record.
Proof.
  assert (H : Forall (fun r => id r = 1 -> inactive r) (rows one_record)).
  { rewrite one_record_rows. constructor; [|constructor].
    intros _. split; [reflexivity|]. split; reflexivity. }
  split; [exact H | exact (lift_undoes_suppress 1 6 2000 0 3000 one_record H)].
Defined.

(** X11 at the address of the record of [one_record]. *)
Lemma registry_results_are_ingestible_witness :
  let t := "https://www.netflix.com/watch/80057281" in
  identify no_files t = Some stranger_things
  /\ (stranger_things !! "source" = Some (PStr "local") -> resolve no_files t <> "")
  /\ snd (validate (<["origin" := PStr "window_watcher"]> stranger_things)) = None
  /\ raised (process_event (offline 1000)
               (<["origin" := PStr "window_watcher"]> stranger_things) empty_db) = None.
Proof.
  intros t.
  assert (H1 : identify no_files t = Some stranger_things) by (vm_compute; reflexivity).
  assert (H2 : stranger_things !! "source" = Some (PStr "local") ->
               resolve no_files t <> "") by (intros _; discriminate).
  split; [exact H1|]. split; [exact H2|].
  exact (proj2 (registry_results_are_ingestible no_files t stranger_things
                  "window_watcher" (offline 1000) empty_db H1 H2)).
Defined.


(** X18 at the record of [one_record]. *)
Lemma browser_url_round_trip_witness :
  provider_id one_row = Some "80057281"
  /\ addressable (source one_row) "80057281"
  /\ exists url r,
       _build_browser_url one_row = Some url
       /\ identify no_files url = Some r
       /\ r !! "source" = Some (PStr (source one_row))
       /\ r !! "provider_id" = Some (PStr "80057281")
       /\ r !! "has_real_id" = Some (PBool true).
Proof.
  assert (H1 : provider_id one_row = Some "80057281") by reflexivity.
  assert (H2 : addressable (source one_row) "80057281").
  { split; [discriminate|]. left. split; reflexivity. }
  split; [exact H1|]. split; [exact H2|].
  exact (proj1 (browser_url_round_trip no_files one_row) "80057281" H1 H2).
Defined.

(** ** The settings: [Config.get] and [Config.set] *)

Lemma split_on_not_nil sep s : split_on sep s <> [].
Proof.
  destruct s as [|c s]; simpl; [discriminate|].
  destruct (Ascii.eqb c sep); [discriminate|].
  destruct (split_on sep s); discriminate.
Qed.

Lemma split_on_app sep a b :
  split_on sep (a +:+ String sep b) = split_on sep a ++ split_on sep b.
Proof.
  unfold String.app. induction a as [|c a IH]; simpl.
  - by rewrite Ascii.eqb_refl.
  - destruct (Ascii.eqb c sep); [by rewrite IH|].
    rewrite IH. pose proof (split_on_not_nil sep a) as N.
    destruct (split_on sep a); [done | reflexivity].
Qed.

Lemma set_keys_cons key rest value m :
  rest <> [] ->
  set_keys (key :: rest) value (JObj m)
  = match set_keys rest value (default (JObj ∅) (m !! key)) with
    | inl child => inl (JObj (<[key := child]> m))
    | inr e => inr e
    end.
Proof. destruct rest; [done | reflexivity]. Qed.

Lemma set_keys_dict keys value obj s' :
  keys <> [] -> set_keys keys value obj = inl s' ->
  exists m m', obj = JObj m /\ s' = JObj m'.
Proof.
  destruct keys as [|key rest]; [done|]. intros _.
  destruct obj; try (destruct rest; discriminate).
  destruct rest as [|k2 rest].
  - simpl. intros H. injection H as <-. eauto.
  - rewrite set_keys_cons by done.
    destruct (set_keys _ _ _); [|discriminate]. intros H. injection H as <-. eauto.
Qed.

Lemma get_set_keys keys : forall value obj s' d,
  keys <> [] -> set_keys keys value obj = inl s' -> get_keys keys s' d = inl value.
Proof.
  induction keys as [|key rest IH]; intros value obj s' d Hk; [done|].
  destruct obj; try (destruct rest; discriminate).
  destruct rest as [|k2 rest].
  - simpl. intros H. injection H as <-. by rewrite lookup_insert_eq.
  - rewrite set_keys_cons by done.
    destruct (set_keys (k2 :: rest) value _) as [child|] eqn:E; [|discriminate].
    intros H. injection H as <-. cbn [get_keys]. rewrite lookup_insert_eq.
    eapply IH; [done | exact E].
Qed.

Lemma set_keys_fresh keys value :
  keys <> [] -> exists s', set_keys keys value (JObj ∅) = inl s'.
Proof.
  induction keys as [|key rest IH]; [done|]. intros _.
  destruct rest as [|k2 rest]; [simpl; eauto|].
  rewrite set_keys_cons by done. rewrite lookup_empty. cbn [default from_option id].
  destruct IH as [s' ->]; [done|]. eauto.
Qed.

Lemma get_keys_fresh keys d : keys <> [] -> get_keys keys (JObj ∅) d = inl d.
Proof. destruct keys; [done|]. intros _. simpl. by rewrite lookup_empty. Qed.

Lemma get_set_keys_part pre : forall a b r r' value obj s' d,
  a <> b -> set_keys (pre ++ a :: r) value obj = inl s' ->
  get_keys (pre ++ b :: r') s' d = get_keys (pre ++ b :: r') obj d.
Proof.
  induction pre as [|key pre IH]; intros a b r r' value obj s' d Hab.
  - cbn [app]. destruct obj; try (destruct r; discriminate).
    destruct r as [|k2 r].
    + simpl. intros H. injection H as <-. by rewrite lookup_insert_ne.
    + rewrite set_keys_cons by done.
      destruct (set_keys _ _ _); [|discriminate]. intros H. injection H as <-.
      cbn [get_keys]. by rewrite lookup_insert_ne.
  - rewrite <- !app_comm_cons.
    destruct obj; try (destruct (pre ++ a :: r); discriminate).
    rewrite set_keys_cons by (by destruct pre).
    destruct (set_keys (pre ++ a :: r) value _) as [child|] eqn:E; [|discriminate].
    intros H. injection H as <-. cbn [get_keys]. rewrite lookup_insert_eq.
    rewrite (IH a b r r' value _ child d Hab E).
    destruct (m !! key) as [v|]; [reflexivity|].
    cbn [default from_option id]. by rewrite get_keys_fresh by (by destruct pre).
Qed.

(** X19. What [Config.set] stores, [Config.get] returns: after a call of
    [set] that does not raise, [get] with the same path returns the
    value, whatever the default, and [get] with a path that parts from
    it returns what it returned before; the settings were a dict and are
    one. On empty settings [set] never raises, and on settings that are
    not a dict it raises [TypeError]. *)
Theorem config_set_get path value settings :
  (forall s', config_set path value settings = inl s' ->
     (forall d, config_get path d s' = inl value)
     /\ (forall path' d, part (split_on "." path) (split_on "." path') ->
           config_get path' d s' = config_get path' d settings)
     /\ exists m m', settings = JObj m /\ s' = JObj m')
  /\ (exists s', config_set path value (JObj ∅) = inl s')
  /\ ((forall m, settings <> JObj m) -> config_set path value settings = inr TypeError).
Proof.
  unfold config_set, config_get.
  pose proof (split_on_not_nil "." path) as N.
  split; [|split].
  - intros s' H. split; [|split].
    + intros d. by apply (get_set_keys (split_on "." path) value settings).
    + intros path' d (pre & a & b & r & r' & Hab & E1 & E2).
      rewrite E1 in H. rewrite E2. by apply (get_set_keys_part pre a b r r' value).
    + by apply (set_keys_dict (split_on "." path) value).
  - by apply set_keys_fresh.
  - intros Hs. destruct (split_on "." path) as [|key rest]; [done|].
    destruct settings; try (destruct rest; reflexivity). by destruct (Hs m).
Qed.

(** X20. Below a value that is not a dict, [Config.get] does not fall
    back on the default: once a path holds a number, a truth value or
    null, [get] with a longer path raises [TypeError]; once it holds an
    empty dict, [get] with a longer path returns the default. *)
Theorem config_get_below_a_leaf path value settings s' more d :
  config_set path value settings = inl s' ->
  match value with
  | JNull | JBool _ | JInt _ | JFloat _ _ =>
      config_get (path +:+ String "." more) d s' = inr TypeError
  | JObj m => m = ∅ -> config_get (path +:+ String "." more) d s' = inl d
  | _ => True
  end.
Proof.
  unfold config_set, config_get. rewrite split_on_app.
  pose proof (split_on_not_nil "." path) as N.
  pose proof (split_on_not_nil "." more) as N'.
  generalize dependent s'. generalize dependent settings.
  assert (G : forall keys obj s', keys <> [] ->
            set_keys keys value obj = inl s' ->
            get_keys (keys ++ split_on "." more) s' d
            = get_keys (split_on "." more) value d).
  { induction keys as [|key rest IH]; intros obj s' Hk; [done|].
    destruct obj; try (destruct rest; discriminate).
    destruct rest as [|k2 rest].
    - simpl. intros H. injection H as <-. by rewrite lookup_insert_eq.
    - rewrite set_keys_cons by done.
      destruct (set_keys (k2 :: rest) value _) as [child|] eqn:E; [|discriminate].
      intros H. injection H as <-. rewrite <- app_comm_cons. cbn [get_keys].
      rewrite lookup_insert_eq. eapply IH; [done | exact E]. }
  intros settings s' H. pose proof (G _ _ _ N H) as E.
  destruct (split_on "." more) as [|k ks] eqn:M; [done|].
  destruct value; try exact I; try (rewrite E; reflexivity).
  intros ->. rewrite E. simpl. by rewrite lookup_empty.
Qed.


(** X20 at the path [ui.theme], set to a number on empty settings. *)
Lemma config_get_below_a_leaf_witness :
  let s' := JObj {[ "ui" := JObj {[ "theme" := JInt 1 ]} ]} in
  config_set "ui.theme" (JInt 1) (JObj ∅) = inl s'
  /\ config_get "ui.theme.name" (JStr "light") s' = inr TypeError.
Proof.
  intros s'.
  assert (H : config_set "ui.theme" (JInt 1) (JObj ∅) = inl s') by reflexivity.
  split; [exact H|].
  exact (config_get_below_a_leaf "ui.theme" (JInt 1) (JObj ∅) s' "name" (JStr "light") H).
Defined.
